(** * Docling document parsing microservice: CSV formatter, upload gate,
      dispatch and converter adapter of [docling-service/main.py].

    Python values are embedded as follows.
    - [str] is a list of Unicode code points ([N]); [bytes] is a list of
      [Byte.byte].
    - An exception raised by the code is a value of [exn]; a function that
      may raise returns a [py_result].
    - The file system and the external converter are threaded explicitly
      through the adapter as a [World]. *)

From Stdlib Require Import List NArith ZArith Bool Lia DecimalString.
From Stdlib.Strings Require Import String Ascii Byte.
Import ListNotations.

Set Implicit Arguments.

(** ** Python [str] primitives *)

Module Py.

Definition char := N.
Definition str := list char.

(** A literal of the source, written as a Rocq string. *)
Definition lit (s : string) : str := map N_of_ascii (list_ascii_of_string s).

Definition quote : char := 34%N.
Definition comma : char := 44%N.
Definition newline : char := 10%N.
Definition nl : str := [newline].

(** [bool(s)] for a string: non-empty. *)
Definition truthy (s : str) : bool :=
  match s with [] => false | _ :: _ => true end.

(** The code points [str.strip()] removes (those with [str.isspace()]). *)
Definition is_space (c : char) : bool :=
  ((9 <=? c) && (c <=? 13) || (28 <=? c) && (c <=? 32)
   || (c =? 133) || (c =? 160) || (c =? 5760)
   || (8192 <=? c) && (c <=? 8202)
   || (c =? 8232) || (c =? 8233) || (c =? 8239) || (c =? 8287)
   || (c =? 12288))%N.

Fixpoint lstrip (s : str) : str :=
  match s with
  | [] => []
  | c :: rest => if is_space c then lstrip rest else s
  end.

Definition rstrip (s : str) : str := rev (lstrip (rev s)).

Definition strip (s : str) : str := rstrip (lstrip s).

(** [s.split(sep)] for a one-character separator: never the empty list. *)
Fixpoint split (sep : char) (s : str) : list str :=
  match s with
  | [] => [[]]
  | c :: rest =>
      if (c =? sep)%N then [] :: split sep rest
      else match split sep rest with
           | [] => [[c]]
           | piece :: pieces => (c :: piece) :: pieces
           end
  end.

(** [sep.join(parts)]. *)
Fixpoint join (sep : str) (parts : list str) : str :=
  match parts with
  | [] => []
  | [p] => p
  | p :: ps => p ++ sep ++ join sep ps
  end.

Fixpoint startswith (s prefix : str) {struct prefix} : bool :=
  match prefix, s with
  | [], _ => true
  | _ :: _, [] => false
  | p :: prefix', c :: s' => (c =? p)%N && startswith s' prefix'
  end.

Definition endswith (s suffix : str) : bool :=
  startswith (rev s) (rev suffix).

(** [sub in s] for strings. *)
Fixpoint contains (sub s : str) : bool :=
  startswith s sub ||
  match s with
  | [] => false
  | _ :: s' => contains sub s'
  end.

Definition str_eqb (a b : str) : bool :=
  if list_eq_dec N.eq_dec a b then true else false.

(** [x in xs] for a list of strings. *)
Definition mem (x : str) (xs : list str) : bool := existsb (str_eqb x) xs.

(** [str(n)] for a non-negative integer. *)
Definition decimal (n : N) : str := lit (NilZero.string_of_uint (N.to_uint n)).

(** [a or b] on strings ([None] and the empty string are falsy). *)
Definition or_else (a : option str) (b : str) : str :=
  match a with
  | Some s => if truthy s then s else b
  | None => b
  end.

(** The suffix of [s] that starts at the last occurrence of [c]
    ([s[s.rfind(c):]]), when there is one. *)
Fixpoint from_last (c : char) (s : str) : option str :=
  match s with
  | [] => None
  | x :: rest =>
      match from_last c rest with
      | Some t => Some t
      | None => if (x =? c)%N then Some s else None
      end
  end.

Fixpoint drop_leading (c : char) (s : str) : str :=
  match s with
  | [] => []
  | x :: rest => if (x =? c)%N then drop_leading c rest else s
  end.

(** [os.path.splitext(p)[1]] (POSIX): the extension starts at the last dot of
    the last path component, leading dots of that component not counted. *)
Definition splitext_ext (p : str) : str :=
  let base := match from_last 47%N p with
              | Some (_ :: b) => b
              | _ => p
              end in
  match from_last 46%N (drop_leading 46%N base) with
  | Some e => e
  | None => []
  end.

End Py.

Import Py.

(** ** CSV table formatter: [parse_csv_to_markdown] *)

(** The three locals of the loop in [parse_csv_line]. *)
Record scan_state := {
  result : list str;
  current : str;
  in_quotes : bool
}.

(** One iteration of [for char in line]. *)
Definition scan_char (st : scan_state) (c : char) : scan_state :=
  if (c =? quote)%N then
    {| result := result st; current := current st;
       in_quotes := negb (in_quotes st) |}
  else if (c =? comma)%N && negb (in_quotes st) then
    {| result := result st ++ [strip (current st)]; current := [];
       in_quotes := in_quotes st |}
  else
    {| result := result st; current := current st ++ [c];
       in_quotes := in_quotes st |}.

Definition parse_csv_line (line : str) : list str :=
  let st := fold_left scan_char line
              {| result := []; current := []; in_quotes := false |} in
  result st ++ [strip (current st)].

(** [lines = [line.strip() for line in csv_content.split('\n') if line.strip()]] *)
Definition csv_lines (csv_content : str) : list str :=
  map strip (filter (fun line => truthy (strip line)) (split newline csv_content)).

(** [rows = [parse_csv_line(line) for line in lines]] *)
Definition csv_rows (csv_content : str) : list (list str) :=
  map parse_csv_line (csv_lines csv_content).

(** ['| ' + ' | '.join(row) + ' |\n'] *)
Definition row_line (row : list str) : str :=
  lit "| " ++ join (lit " | ") row ++ lit " |" ++ nl.

(** ['|' + '|'.join(['---' for _ in headers]) + '|\n'] *)
Definition separator_line (headers : list str) : str :=
  lit "|" ++ join (lit "|") (map (fun _ => lit "---") headers) ++ lit "|" ++ nl.

(** One iteration of [for row in rows[1:]]. *)
Definition emit_row (headers : list str) (markdown : str) (row : list str) : str :=
  if (List.length row =? List.length headers)%nat then markdown ++ row_line row
  else markdown.

Definition parse_csv_to_markdown (csv_content : str) : str :=
  let lines := csv_lines csv_content in
  match lines with
  | [] => []
  | _ :: _ =>
      let rows := map parse_csv_line lines in
      match rows with
      | [] => []
      | headers :: rest =>
          let markdown := lit "## Document Data" ++ nl ++ nl in
          let markdown := markdown ++ row_line headers in
          let markdown := markdown ++ separator_line headers in
          fold_left (emit_row headers) rest markdown
      end
  end.

(** *** Specification-level views of the formatter *)

(** The scanner as the specification words it: quote toggles, an unquoted
    comma ends the cell, anything else joins the cell, the last cell is
    flushed at the end of the line.  Cells are returned untrimmed. *)
Fixpoint raw_cells (inQuotes : bool) (line : str) : list str :=
  match line with
  | [] => [[]]
  | c :: rest =>
      if (c =? quote)%N then raw_cells (negb inQuotes) rest
      else if (c =? comma)%N && negb inQuotes then [] :: raw_cells inQuotes rest
      else match raw_cells inQuotes rest with
           | [] => [[c]]
           | cell :: cells => (c :: cell) :: cells
           end
  end.

(** Number of commas met while the flag is off. *)
Fixpoint delimiters (inQuotes : bool) (line : str) : nat :=
  match line with
  | [] => 0
  | c :: rest =>
      if (c =? quote)%N then delimiters (negb inQuotes) rest
      else if (c =? comma)%N && negb inQuotes then S (delimiters inQuotes rest)
      else delimiters inQuotes rest
  end.

(** The inputs of the two worked examples of the specification. *)
Definition ragged_example : str :=
  lit "a,b" ++ nl ++ lit "1,2" ++ nl ++ lit "3,4,5" ++ nl ++ lit "6,7".

Definition quoted_example : str :=
  [quote] ++ lit "a,b" ++ [quote] ++ lit ",c" ++ nl ++ lit "1,2".

(** A string with no whitespace at either end. *)
Definition trimmed (s : str) : Prop :=
  (forall c, hd_error s = Some c -> is_space c = false) /\
  (forall c, hd_error (rev s) = Some c -> is_space c = false).

(** The table the specification describes: heading, header row, separator,
    then the given data rows. *)
Definition render_table (headers : list str) (data : list (list str)) : str :=
  lit "## Document Data" ++ nl ++ nl ++ row_line headers
    ++ separator_line headers ++ List.concat (map row_line data).

(** ** Numbers: the size message *)

Module Float.

(** A finite non-negative binary float, [mant * 2^(-scale)]. *)
Record float := { mant : Z; scale : Z }.

(** The integer nearest to [n / 2^k], ties to the even one. *)
Definition round_shift (n k : Z) : Z :=
  let q := Z.shiftr n k in
  let r := (n - Z.shiftl q k)%Z in
  let half := Z.shiftl 1 (k - 1) in
  if (r <? half)%Z then q
  else if (half <? r)%Z then (q + 1)%Z
  else if Z.even q then q else (q + 1)%Z.

(** [float(n)] for [0 <= n]: [n] rounded to 53 significant bits, ties to
    even.  Exact below [2^53]. *)
Definition round53 (n : Z) : Z :=
  let excess := (Z.log2 n + 1 - 53)%Z in
  if (excess <=? 0)%Z then n
  else Z.shiftl (round_shift n excess) excess.

(** [n / 2^k] for an [int] [n]: the quotient correctly rounded, which for a
    power of two is the rounded numerator rescaled. *)
Definition int_div_pow2 (n k : Z) : float := {| mant := round53 n; scale := k |}.

(** [x / 2^k] for a float [x]: exact. *)
Definition div_pow2 (x : float) (k : Z) : float :=
  {| mant := mant x; scale := (scale x + k)%Z |}.

(** Nearest integer to [a / b] for [0 <= a], [0 < b], ties to even. *)
Definition round_div (a b : Z) : Z :=
  let q := (a / b)%Z in
  let r := (a mod b)%Z in
  if (2 * r <? b)%Z then q
  else if (b <? 2 * r)%Z then (q + 1)%Z
  else if Z.even q then q else (q + 1)%Z.

(** [f"{x:.2f}"]: the exact value rounded to hundredths, ties to even. *)
Definition format_2f (x : float) : str :=
  let hundredths := round_div (mant x * 100) (2 ^ scale x) in
  let frac := Z.to_N (hundredths mod 100) in
  decimal (Z.to_N (hundredths / 100)) ++ lit "."
    ++ (if (frac <? 10)%N then lit "0" else []) ++ decimal frac.

End Float.

(** ** UTF-8 decoding: [bytes.decode('utf-8')] *)

Definition bytes := list byte.

Definition continuation (b : N) : bool := ((128 <=? b) && (b <=? 191))%N.
Definition between (lo hi b : N) : bool := ((lo <=? b) && (b <=? hi))%N.

(** Strict UTF-8: shortest form only, no surrogates, nothing above U+10FFFF.
    [None] when the bytes are not well formed. *)
Fixpoint utf8_decode (bs : list N) : option str :=
  match bs with
  | [] => Some []
  | b0 :: r0 =>
      if (b0 <? 128)%N then option_map (cons b0) (utf8_decode r0)
      else if between 194 223 b0 then
        match r0 with
        | b1 :: r1 =>
            if continuation b1
            then option_map (cons ((b0 - 192) * 64 + (b1 - 128))%N) (utf8_decode r1)
            else None
        | _ => None
        end
      else if between 224 239 b0 then
        match r0 with
        | b1 :: b2 :: r2 =>
            if (if (b0 =? 224)%N then between 160 191 b1
                else if (b0 =? 237)%N then between 128 159 b1
                else continuation b1) && continuation b2
            then option_map
                   (cons ((b0 - 224) * 4096 + (b1 - 128) * 64 + (b2 - 128))%N)
                   (utf8_decode r2)
            else None
        | _ => None
        end
      else if between 240 244 b0 then
        match r0 with
        | b1 :: b2 :: b3 :: r3 =>
            if (if (b0 =? 240)%N then between 144 191 b1
                else if (b0 =? 244)%N then between 128 143 b1
                else continuation b1) && continuation b2 && continuation b3
            then option_map
                   (cons ((b0 - 240) * 262144 + (b1 - 128) * 4096
                          + (b2 - 128) * 64 + (b3 - 128))%N)
                   (utf8_decode r3)
            else None
        | _ => None
        end
      else None
  end.

Definition valid_utf8 (content : bytes) : Prop :=
  utf8_decode (map Byte.to_N content) <> None.

(** ASCII text as bytes, for examples. *)
Definition encode_ascii (s : string) : bytes := list_byte_of_string s.

(** ** Exceptions, the world, and the monad of the request path *)

Inductive exn :=
| HTTPException (status_code : Z) (detail : str)
| OtherException (message : str).

(** [str(e)]; an [HTTPException] prints as ["{status_code}: {detail}"]. *)
Definition exn_str (e : exn) : str :=
  match e with
  | HTTPException code detail => decimal (Z.to_N code) ++ lit ": " ++ detail
  | OtherException message => message
  end.

Inductive py_result (A : Type) :=
| Return (a : A)
| Raise (e : exn).
Arguments Raise {A} e.

Definition path := str.

Inductive event :=
| EvCreate (p : path)
| EvWrite (p : path)
| EvConvert (p : path)
| EvUnlink (p : path).

(** What the request path can see and change outside itself. *)
Record World := {
  files : list path;      (* the paths that exist *)
  free_space : N;         (* how many bytes can still be written *)
  tmp_names : list str;   (* the random stems [tempfile] will draw, in order *)
  log : list event        (* file and converter operations, oldest first *)
}.

Definition M (A : Type) : Type := World -> py_result A * World.

Definition ret {A} (a : A) : M A := fun w => (Return a, w).
Definition raise {A} (e : exn) : M A := fun w => (Raise e, w).
Definition bind {A B} (m : M A) (k : A -> M B) : M B :=
  fun w => match m w with
           | (Return a, w') => k a w'
           | (Raise e, w') => (Raise e, w')
           end.

Notation "x <- m ;; k" := (bind m (fun x => k))
  (at level 61, m at next level, right associativity).
Notation "m ;;; k" := (bind m (fun _ => k))
  (at level 61, right associativity).

(** [try: body finally: cleanup]: the cleanup always runs; if it raises, its
    exception is the one that leaves the statement. *)
Definition try_finally {A} (body : M A) (cleanup : M unit) : M A :=
  fun w => match body w with
           | (r, w') => match cleanup w' with
                        | (Return _, w'') => (r, w'')
                        | (Raise e, w'') => (Raise e, w'')
                        end
           end.

(** [try: body except Exception as e: handler]. *)
Definition try_except {A} (body : M A) (handler : exn -> M A) : M A :=
  fun w => match body w with
           | (Return a, w') => (Return a, w')
           | (Raise e, w') => handler e w'
           end.

Definition record (e : event) : M unit :=
  fun w => (Return tt, {| files := files w; free_space := free_space w;
                          tmp_names := tmp_names w; log := log w ++ [e] |}).

Definition in_files (p : path) (fs : list path) : bool := mem p fs.

Definition remove_file (p : path) (fs : list path) : list path :=
  filter (fun q => negb (str_eqb q p)) fs.

(** [tempfile.NamedTemporaryFile(delete=False, suffix=suffix)]: draws stems
    until one names a path that does not exist and creates it; raises when no
    name is left. *)
Fixpoint draw_name (stems : list str) (suffix : str) (fs : list path)
  : option (path * list str) :=
  match stems with
  | [] => None
  | stem :: rest =>
      let p := lit "/tmp/tmp" ++ stem ++ suffix in
      if in_files p fs then draw_name rest suffix fs else Some (p, rest)
  end.

Definition NamedTemporaryFile (suffix : str) : M path :=
  fun w => match draw_name (tmp_names w) suffix (files w) with
           | None =>
               (Raise (OtherException
                         (lit "[Errno 17] No usable temporary file name found")),
                {| files := files w; free_space := free_space w;
                   tmp_names := []; log := log w |})
           | Some (p, rest) =>
               (Return p,
                {| files := p :: files w; free_space := free_space w;
                   tmp_names := rest; log := log w ++ [EvCreate p] |})
           end.

(** [tmp_file.write(data)] followed by the close at the end of the [with]
    block: raises when the device is full; the file stays in either case. *)
Definition write_file (p : path) (data : bytes) : M unit :=
  fun w =>
    let w' := {| files := files w; free_space := free_space w;
                 tmp_names := tmp_names w; log := log w ++ [EvWrite p] |} in
    if (N.of_nat (List.length data) <=? free_space w)%N then
      (Return tt,
       {| files := files w';
          free_space := free_space w - N.of_nat (List.length data);
          tmp_names := tmp_names w'; log := log w' |})
    else
      (Raise (OtherException (lit "[Errno 28] No space left on device")), w').

(** [os.path.exists(p)] *)
Definition path_exists (p : path) : M bool :=
  fun w => (Return (in_files p (files w)), w).

(** [os.unlink(p)] of an existing path. *)
Definition unlink (p : path) : M unit :=
  fun w => (Return tt,
            {| files := remove_file p (files w); free_space := free_space w;
               tmp_names := tmp_names w; log := log w ++ [EvUnlink p] |}).

(** ** The external converter *)

(** A call of the library either returns or raises. *)
Inductive outcome (A : Type) :=
| Returns (a : A)
| Throws (e : exn).
Arguments Throws {A} e.

(** What [converter.convert] returns, as far as the adapter looks at it:
    [document] is present when [hasattr(result, 'document')], and holds what
    [result.document.export_to_markdown()] does; [markdown_attr] is present
    when [hasattr(result, 'markdown')]; [as_str] is [str(result)]. *)
Record ConversionResult := {
  document : option (outcome str);
  markdown_attr : option str;
  as_str : outcome str
}.

(** The converter object: given the path and the existing files, it returns
    or raises, and may leave the files changed. *)
Record DocumentConverter := {
  convert_fn : path -> list path -> outcome ConversionResult * list path
}.

Definition lift {A} (o : outcome A) : M A :=
  match o with
  | Returns a => ret a
  | Throws e => raise e
  end.

(** [converter.convert(tmp_path)] *)
Definition convert (c : DocumentConverter) (p : path) : M ConversionResult :=
  fun w => let '(o, fs) := convert_fn c p (files w) in
           lift o {| files := fs; free_space := free_space w;
                     tmp_names := tmp_names w; log := log w ++ [EvConvert p] |}.

(** The two process-wide values set when the module is loaded. *)
Record Service := {
  DOCLING_AVAILABLE : bool;
  converter : option DocumentConverter
}.

(** Module start: the import of the library, then the construction of the
    converter; a failure of either leaves the service without converter. *)
Definition startup (import_ok : bool) (construct : outcome DocumentConverter)
  : Service :=
  if import_ok then
    match construct with
    | Returns c => {| DOCLING_AVAILABLE := true; converter := Some c |}
    | Throws _ => {| DOCLING_AVAILABLE := false; converter := None |}
    end
  else {| DOCLING_AVAILABLE := false; converter := None |}.

(** ** The adapter: [parse_pdf_with_docling], [parse_image_with_docling] *)

(** The [if hasattr ... elif hasattr ... else] chain. *)
Definition extract_markdown (r : ConversionResult) : M str :=
  match document r with
  | Some export => lift export
  | None =>
      match markdown_attr r with
      | Some m => ret m
      | None => lift (as_str r)
      end
  end.

(** The [finally] block of both adapters. *)
Definition cleanup (tmp_path : path) : M unit :=
  b <- path_exists tmp_path ;;
  if b then unlink tmp_path else ret tt.

Definition parse_pdf_with_docling (svc : Service) (file_content : bytes)
    (filename : str) : M str :=
  match DOCLING_AVAILABLE svc, converter svc with
  | true, Some c =>
      try_except
        (tmp_path <- (tmp_file <- NamedTemporaryFile (lit ".pdf") ;;
                      write_file tmp_file file_content ;;;
                      ret tmp_file) ;;
         try_finally
           (r <- convert c tmp_path ;;
            markdown <- extract_markdown r ;;
            ret (if truthy markdown then markdown
                 else lit "## PDF Document: " ++ filename ++ nl ++ nl
                        ++ lit "*No text extracted from PDF.*"))
           (cleanup tmp_path))
        (fun e => raise (HTTPException 500 (lit "Failed to parse PDF: " ++ exn_str e)))
  | _, _ =>
      raise (HTTPException 503
               (lit "Docling is not available. Please install docling: pip install docling"))
  end.

Definition parse_image_with_docling (svc : Service) (file_content : bytes)
    (filename : str) : M str :=
  match DOCLING_AVAILABLE svc, converter svc with
  | true, Some c =>
      try_except
        (let ext := or_else (Some (splitext_ext filename)) (lit ".png") in
         tmp_path <- (tmp_file <- NamedTemporaryFile ext ;;
                      write_file tmp_file file_content ;;;
                      ret tmp_file) ;;
         try_finally
           (r <- convert c tmp_path ;;
            markdown <- extract_markdown r ;;
            ret (if truthy markdown then markdown
                 else lit "## Image Document: " ++ filename ++ nl ++ nl
                        ++ lit "*No text extracted from image.*"))
           (cleanup tmp_path))
        (fun e => raise (HTTPException 500 (lit "Failed to parse image: " ++ exn_str e)))
  | _, _ =>
      raise (HTTPException 503
               (lit "Image parsing is currently unavailable. Docling service is not initialized. Please contact support or try uploading a CSV file instead."))
  end.

(** ** The request handler: [parse_document] *)

Record UploadFile := {
  filename : option str;
  content_type : option str;
  content : bytes              (* what [await file.read()] returns *)
}.

Record Metadata := {
  fileName : str;
  fileType : str;
  fileSize : Z
}.

Record JSONResponse := {
  success : bool;
  markdown : str;
  metadata : Metadata
}.

Section Handler.

(** [str.lower()] on a code point above 127, given what stands before and
    after it in the string (the lower case of a capital sigma depends on
    them); its result is the library's. *)
Variable unicode_lower : str -> char -> str -> str.

(** The text of the [UnicodeDecodeError] the codec raises for these bytes. *)
Variable utf8_error_message : bytes -> str.

Definition lower_char (before : str) (c : char) (after : str) : str :=
  if ((65 <=? c) && (c <=? 90))%N then [(c + 32)%N]
  else if (c <? 128)%N then [c]
  else unicode_lower before c after.

Fixpoint lower_from (before s : str) : str :=
  match s with
  | [] => []
  | c :: rest => lower_char before c rest ++ lower_from (before ++ [c]) rest
  end.

(** [s.lower()] *)
Definition lower (s : str) : str := lower_from [] s.

(** [file_content.decode('utf-8')] *)
Definition decode (file_content : bytes) : M str :=
  match utf8_decode (map Byte.to_N file_content) with
  | Some text => ret text
  | None => raise (OtherException (utf8_error_message file_content))
  end.

Definition MAX_FILE_SIZE : Z := 10 * 1024 * 1024.

Definition valid_extensions : list str :=
  [lit ".pdf"; lit ".csv"; lit ".png"; lit ".jpg"; lit ".jpeg"].

Definition valid_types : list str :=
  [lit "application/pdf"; lit "text/csv"; lit "image/png"; lit "image/jpeg";
   lit "image/jpg"].

Definition has_valid_extension (name : str) : bool :=
  existsb (fun ext => endswith (lower name) ext) valid_extensions.

Definition has_valid_type (ctype : str) : bool :=
  mem (lower ctype) valid_types.

(** The conditions of the [if] / [elif] / [elif] chain, in its order. *)
Definition csv_condition (name ctype : str) : bool :=
  endswith (lower name) (lit ".csv") || contains (lit "csv") (lower ctype).

Definition pdf_condition (name ctype : str) : bool :=
  endswith (lower name) (lit ".pdf") || contains (lit "pdf") (lower ctype).

Definition image_condition (name ctype : str) : bool :=
  existsb (fun ext => endswith (lower name) ext)
          [lit ".png"; lit ".jpg"; lit ".jpeg"]
  || mem (lower ctype) [lit "image/png"; lit "image/jpeg"; lit "image/jpg"].

(** The detail of the size rejection. *)
Definition too_large_detail (file_size : Z) : str :=
  let file_size_mb := Float.div_pow2 (Float.int_div_pow2 file_size 10) 10 in
  lit "File size exceeds 10MB limit. Your file is "
    ++ Float.format_2f file_size_mb
    ++ lit "MB. Please upload a smaller file.".

Definition unsupported_gate_detail : str :=
  lit "Only PNG, JPG, CSV, and PDF files are allowed. Please upload a supported file type.".

Definition unsupported_dispatch_detail : str :=
  lit "Unsupported file type. Please upload PDF, CSV, or Image files only.".

(** The body of the CSV branch. *)
Definition csv_branch (file_content : bytes) : M (str * str) :=
  csv_text <- decode file_content ;;
  ret (parse_csv_to_markdown csv_text, lit "text/csv").

(** The body of the outer [try]. *)
Definition parse_document_body (svc : Service) (file : UploadFile)
  : M JSONResponse :=
  let file_content := content file in
  let name := or_else (filename file) (lit "document") in
  let ctype := or_else (content_type file) [] in
  let file_size := Z.of_nat (List.length file_content) in
  if (file_size >? MAX_FILE_SIZE)%Z then
    raise (HTTPException 400 (too_large_detail file_size))
  else if negb (has_valid_extension name) && negb (has_valid_type ctype) then
    raise (HTTPException 400 unsupported_gate_detail)
  else
    parsed <-
      (if csv_condition name ctype then
         csv_branch file_content
       else if pdf_condition name ctype then
         md <- parse_pdf_with_docling svc file_content name ;;
         ret (md, lit "application/pdf")
       else if image_condition name ctype then
         md <- parse_image_with_docling svc file_content name ;;
         ret (md, or_else (Some ctype) (lit "image"))
       else
         raise (HTTPException 400 unsupported_dispatch_detail)) ;;
    ret {| success := true;
           markdown := fst parsed;
           metadata := {| fileName := name;
                          fileType := snd parsed;
                          fileSize := Z.of_nat (List.length file_content) |} |}.

(** [except HTTPException: raise], then [except Exception as e]. *)
Definition parse_document (svc : Service) (file : UploadFile)
  : M JSONResponse :=
  try_except (parse_document_body svc file)
    (fun e => match e with
              | HTTPException _ _ => raise e
              | OtherException _ =>
                  raise (HTTPException 500
                           (lit "Failed to parse document: " ++ exn_str e))
              end).

(** *** Vocabulary of the claims *)

(** The size check lets the file through. *)
Definition within_size_limit (file : UploadFile) : Prop :=
  (Z.of_nat (List.length (content file)) <= MAX_FILE_SIZE)%Z.

(** The names the handler works with. *)
Definition effective_name (file : UploadFile) : str :=
  or_else (filename file) (lit "document").

Definition effective_type (file : UploadFile) : str :=
  or_else (content_type file) [].

(** The file passes both checks of the gate. *)
Definition passes_gate (file : UploadFile) : Prop :=
  within_size_limit file /\
  (has_valid_extension (effective_name file) = true \/
   has_valid_type (effective_type file) = true).

(** The byte length the handler measures. *)
Definition size_of (file : UploadFile) : Z :=
  Z.of_nat (List.length (content file)).

(** The success response for a file. *)
Definition response (file : UploadFile) (md file_type : str) : JSONResponse :=
  {| success := true;
     markdown := md;
     metadata := {| fileName := effective_name file;
                    fileType := file_type;
                    fileSize := size_of file |} |}.

(** What the request ends with on the CSV path. *)
Definition csv_outcome (file : UploadFile) : py_result JSONResponse :=
  match utf8_decode (map Byte.to_N (content file)) with
  | Some text => Return (response file (parse_csv_to_markdown text) (lit "text/csv"))
  | None =>
      Raise (HTTPException 500
               (lit "Failed to parse document: " ++ utf8_error_message (content file)))
  end.

(** What the request ends with on an adapter path, from what the adapter did. *)
Definition adapter_outcome (file : UploadFile) (file_type : str)
    (r : py_result str * World) : py_result JSONResponse * World :=
  match r with
  | (Return md, w) => (Return (response file md file_type), w)
  | (Raise e, w) => (Raise e, w)
  end.

(** The request is refused for its size. *)
Definition file_too_large (r : py_result JSONResponse) : Prop :=
  exists size, r = Raise (HTTPException 400 (too_large_detail size)).

(** The two digits after the point. *)
Definition two_digits (n : Z) : str :=
  (if (Z.to_N n <? 10)%N then lit "0" else []) ++ decimal (Z.to_N n).

(** The cell under construction goes in front of the first cell still to come. *)
Definition onto_first (cur : str) (cells : list str) : list str :=
  match cells with
  | [] => [cur]
  | cell :: rest => (cur ++ cell) :: rest
  end.

(** A code point [str.lower()] leaves as it is, wherever it stands. *)
Definition lower_fixed (c : char) : bool :=
  ((c <? 128) && negb ((65 <=? c) && (c <=? 90)))%N.

(** *** Sample values *)

(** A converter that returns a structured document and leaves the files alone. *)
Definition sample_converter : DocumentConverter :=
  {| convert_fn := fun _ fs =>
       (Returns {| document := Some (Returns (lit "# Title"));
                   markdown_attr := None;
                   as_str := Returns [] |}, fs) |}.

Definition available_service : Service := startup true (Returns sample_converter).

Definition unavailable_service : Service :=
  startup false (Returns sample_converter).

(** A world with room on the device, and one with none. *)
Definition roomy_world : World :=
  {| files := []; free_space := 1048576; tmp_names := [lit "k3x"]; log := [] |}.

Definition full_world : World :=
  {| files := []; free_space := 0; tmp_names := [lit "k3x"]; log := [] |}.

Definition upload (name ctype : option str) (data : string) : UploadFile :=
  {| filename := name; content_type := ctype; content := encode_ascii data |}.

(** Stand-ins for the two library behaviours the handler is parametric in. *)
Definition sample_lower : str -> char -> str -> str := fun _ c _ => [c].

Definition sample_message : bytes -> str :=
  fun _ => lit "'utf-8' codec can't decode byte 0xff in position 0: invalid start byte".

(** *** Vocabulary of the further properties *)

(** Every code point of the string is one [str.strip()] removes. *)
Definition all_space (s : str) : bool := forallb is_space s.


(** How many line ends a string holds. *)
Definition line_ends (s : str) : nat := count_occ N.eq_dec s newline.

(** The data rows the formatter keeps. *)
Definition kept_rows (csv_content : str) : list (list str) :=
  match csv_rows csv_content with
  | [] => []
  | headers :: rest =>
      filter (fun row => (List.length row =? List.length headers)%nat) rest
  end.

(** What the [hasattr] chain takes from a conversion result. *)
Definition extracted (r : ConversionResult) : outcome str :=
  match document r with
  | Some export => export
  | None =>
      match markdown_attr r with
      | Some m => Returns m
      | None => as_str r
      end
  end.

(** What the guarded block of an adapter ends with, from what the converter
    did: the markdown or the placeholder, or the exception of the converter
    or of the extraction. *)
Definition converted (o : outcome ConversionResult) (placeholder : str)
  : outcome str :=
  match o with
  | Throws e => Throws e
  | Returns r =>
      match extracted r with
      | Throws e => Throws e
      | Returns md => Returns (if truthy md then md else placeholder)
      end
  end.

(** The answer of an adapter for such an end of the guarded block. *)
Definition adapter_answer (prefix : str) (o : outcome str) : py_result str :=
  match o with
  | Returns md => Return md
  | Throws e => Raise (HTTPException 500 (prefix ++ exn_str e))
  end.

(** The world after an adapter ran to the end of its [finally] block. *)
Definition world_after (w : World) (p : path) (rest : list str) (size : N)
    (fs : list path) : World :=
  {| files := if in_files p fs then remove_file p fs else fs;
     free_space := free_space w - size;
     tmp_names := rest;
     log := log w ++ [EvCreate p; EvWrite p; EvConvert p]
              ++ (if in_files p fs then [EvUnlink p] else []) |}.

(** A service whose converter is there. *)
Definition service_with (conv : DocumentConverter) : Service :=
  {| DOCLING_AVAILABLE := true; converter := Some conv |}.

(** The suffix the image adapter asks for. *)
Definition image_suffix (name : str) : str :=
  or_else (Some (splitext_ext name)) (lit ".png").



(** The file and converter operations one adapter call may add to the log:
    none; or, on one path with the given suffix, create and write; then the
    conversion; then the unlink. *)
Definition adapter_trace (suffix : str) (l : list event) : Prop :=
  l = [] \/
  exists p, endswith p suffix = true /\
    (l = [EvCreate p; EvWrite p]
     \/ l = [EvCreate p; EvWrite p; EvConvert p]
     \/ l = [EvCreate p; EvWrite p; EvConvert p; EvUnlink p]).

(** The service has no usable converter. *)
Definition unavailable (svc : Service) : Prop :=
  DOCLING_AVAILABLE svc = false \/ converter svc = None.

(** The reply of [GET /]. *)
Record RootReply := {
  service : str;
  status : str;
  docling_available : bool
}.

Definition root (svc : Service) : RootReply :=
  {| service := lit "Docling Document Parser";
     status := lit "running";
     docling_available := DOCLING_AVAILABLE svc |}.

(** The reply of [GET /health]. *)
Record HealthReply := {
  health_status : str;
  health_docling_available : bool;
  converter_initialized : bool
}.

Definition health (svc : Service) : HealthReply :=
  {| health_status := lit "healthy";
     health_docling_available := DOCLING_AVAILABLE svc;
     converter_initialized :=
       match converter svc with Some _ => true | None => false end |}.

(** ASCII code points and their lower case. *)
Definition is_ascii (c : char) : bool := (c <? 128)%N.

Definition ascii_lower (c : char) : char :=
  if ((65 <=? c) && (c <=? 90))%N then (c + 32)%N else c.

(** * Properties *)

(** ** Stripping *)

Lemma lstrip_suffix (s : str) : exists pre, s = pre ++ lstrip s.
Proof.
  induction s as [|c rest [pre IH]]; simpl.
  - now exists [].
  - destruct (is_space c).
    + exists (c :: pre). simpl. now rewrite <- IH.
    + now exists [].
Qed.

Lemma lstrip_head (s : str) (c : char) :
  hd_error (lstrip s) = Some c -> is_space c = false.
Proof.
  induction s as [|x rest IH]; simpl; [discriminate|].
  destruct (is_space x) eqn:E; [exact IH|].
  simpl. intros [= <-]. exact E.
Qed.

Lemma rstrip_prefix (s : str) : exists post, s = rstrip s ++ post.
Proof.
  unfold rstrip. destruct (lstrip_suffix (rev s)) as [pre H].
  exists (rev pre).
  rewrite <- rev_app_distr, <- H. now rewrite rev_involutive.
Qed.

Lemma In_lstrip (s : str) (c : char) : In c (lstrip s) -> In c s.
Proof.
  destruct (lstrip_suffix s) as [pre H]. intro Hin.
  rewrite H. apply in_or_app. now right.
Qed.

Lemma In_strip (s : str) (c : char) : In c (strip s) -> In c s.
Proof.
  unfold strip, rstrip. intro H.
  apply In_lstrip. apply in_rev. apply In_lstrip. now apply in_rev in H.
Qed.

Lemma strip_trimmed (s : str) : trimmed (strip s).
Proof.
  split; intros c Hc.
  - destruct (rstrip_prefix (lstrip s)) as [post Hpost].
    apply (lstrip_head s). rewrite Hpost.
    unfold strip in Hc. destruct (rstrip (lstrip s)); [discriminate|exact Hc].
  - unfold strip, rstrip in Hc. rewrite rev_involutive in Hc.
    exact (lstrip_head _ Hc).
Qed.

(** ** The line scanner *)

Lemma raw_cells_cons (q : bool) (line : str) :
  exists cell cells, raw_cells q line = cell :: cells.
Proof.
  revert q. induction line as [|c rest IH]; intro q; simpl.
  - now exists [], [].
  - destruct (c =? quote)%N; [apply IH|].
    destruct ((c =? comma)%N && negb q).
    + now exists [], (raw_cells q rest).
    + destruct (IH q) as (cell & cells & ->). now exists (c :: cell), cells.
Qed.

Lemma scan_fold (line : str) (st : scan_state) :
  let st' := fold_left scan_char line st in
  result st' ++ [strip (current st')] =
  result st ++ map strip (onto_first (current st) (raw_cells (in_quotes st) line)).
Proof.
  revert st. induction line as [|c rest IH]; intro st; simpl.
  - now rewrite app_nil_r.
  - rewrite IH. unfold scan_char.
    destruct (c =? quote)%N; simpl; [reflexivity|].
    destruct ((c =? comma)%N && negb (in_quotes st)); simpl.
    + destruct (raw_cells_cons (in_quotes st) rest) as (cell & cells & ->).
      rewrite <- app_assoc, app_nil_r. reflexivity.
    + destruct (raw_cells_cons (in_quotes st) rest) as (cell & cells & ->).
      simpl. now rewrite <- app_assoc.
Qed.

Lemma parse_csv_line_raw (line : str) :
  parse_csv_line line = map strip (raw_cells false line).
Proof.
  unfold parse_csv_line. rewrite scan_fold. simpl.
  now destruct (raw_cells_cons false line) as (cell & cells & ->).
Qed.

Lemma raw_cells_length (q : bool) (line : str) :
  List.length (raw_cells q line) = S (delimiters q line).
Proof.
  revert q. induction line as [|c rest IH]; intro q; simpl; [reflexivity|].
  destruct (c =? quote)%N; [apply IH|].
  destruct ((c =? comma)%N && negb q); simpl.
  - now rewrite IH.
  - rewrite <- IH. now destruct (raw_cells_cons q rest) as (cell & cells & ->).
Qed.

Lemma raw_cells_no_quote (q : bool) (line : str) :
  Forall (fun cell => ~ In quote cell) (raw_cells q line).
Proof.
  revert q. induction line as [|c rest IH]; intro q; simpl.
  - constructor; [intros []|constructor].
  - destruct (c =? quote)%N eqn:Eq; [apply IH|].
    destruct ((c =? comma)%N && negb q).
    + constructor; [intros []|apply IH].
    + specialize (IH q).
      destruct (raw_cells_cons q rest) as (cell & cells & E).
      rewrite E in *. inversion IH; subst.
      constructor; [|assumption].
      intros [Hc|Hin]; [|contradiction].
      subst c. now rewrite N.eqb_refl in Eq.
Qed.

Lemma raw_cells_join (q : bool) (line : str) :
  join [comma] (raw_cells q line) =
  filter (fun c => negb (c =? quote)%N) line.
Proof.
  revert q. induction line as [|c rest IH]; intro q; simpl; [reflexivity|].
  destruct (c =? quote)%N eqn:Eq; simpl; [apply IH|].
  destruct ((c =? comma)%N && negb q) eqn:Ec.
  - apply andb_prop in Ec as [Ec _]. apply N.eqb_eq in Ec. subst c.
    rewrite <- (IH q).
    now destruct (raw_cells_cons q rest) as (cell & cells & ->).
  - rewrite <- (IH q).
    destruct (raw_cells_cons q rest) as (cell & cells & ->).
    now destruct cells.
Qed.

(** ** The table *)

Lemma emit_rows_fold (headers : list str) (rest : list (list str)) (acc : str) :
  fold_left (emit_row headers) rest acc =
  acc ++ List.concat
           (map row_line
                (filter (fun row => (List.length row =? List.length headers)%nat) rest)).
Proof.
  revert acc. induction rest as [|row rest IH]; intro acc; simpl.
  - now rewrite app_nil_r.
  - rewrite IH. unfold emit_row.
    destruct (List.length row =? List.length headers)%nat; simpl.
    + now rewrite <- app_assoc.
    + reflexivity.
Qed.

Lemma parse_csv_to_markdown_table (csv : str) :
  parse_csv_to_markdown csv =
  match csv_rows csv with
  | [] => []
  | headers :: rest =>
      render_table headers
        (filter (fun row => (List.length row =? List.length headers)%nat) rest)
  end.
Proof.
  unfold parse_csv_to_markdown, csv_rows. cbv zeta.
  destruct (csv_lines csv) as [|l ls]; [reflexivity|].
  cbn [map]. rewrite emit_rows_fold.
  unfold render_table. now rewrite <- !app_assoc.
Qed.

(** C1. For every CSV text the formatter returns the table made of the header
    row and exactly those later parsed rows that have as many cells as the
    header: each emitted row has the header's cell count, is one of the
    parsed rows unchanged, and a parsed row with another cell count is left
    out.  On the four-line example the rows [1|2] and [6|7] are emitted and
    [3,4,5] is not. *)
Theorem C1_emitted_rows_match_header :
  (forall csv : str,
     let rows := csv_rows csv in
     let headers := hd [] rows in
     let emitted :=
       filter (fun row => (List.length row =? List.length headers)%nat) (tl rows) in
     parse_csv_to_markdown csv =
       match rows with [] => [] | _ :: _ => render_table headers emitted end
     /\ Forall (fun row => List.length row = List.length headers) emitted
     /\ (forall row, In row emitted <->
                     In row (tl rows) /\ List.length row = List.length headers))
  /\ csv_rows ragged_example =
       [[lit "a"; lit "b"]; [lit "1"; lit "2"]; [lit "3"; lit "4"; lit "5"];
        [lit "6"; lit "7"]]
  /\ parse_csv_to_markdown ragged_example =
       render_table [lit "a"; lit "b"] [[lit "1"; lit "2"]; [lit "6"; lit "7"]]
  /\ parse_csv_to_markdown ragged_example =
       lit "## Document Data" ++ nl ++ nl
         ++ lit "| a | b |" ++ nl
         ++ lit "|---|---|" ++ nl
         ++ lit "| 1 | 2 |" ++ nl
         ++ lit "| 6 | 7 |" ++ nl.
Proof.
  split; [|repeat split; vm_compute; reflexivity].
  intros csv rows headers emitted. split; [|split].
  - rewrite parse_csv_to_markdown_table. fold rows.
    subst emitted headers. now destruct rows.
  - apply Forall_forall. intros row Hin.
    apply filter_In in Hin as [_ H]. now apply Nat.eqb_eq.
  - intro row. subst emitted. rewrite filter_In, Nat.eqb_eq. reflexivity.
Qed.

(** C2. The line scanner reads the line once with the [in_quotes] flag: its
    cells are the trimmed cells of the scan the specification describes
    (quote toggles, unquoted comma delimits, anything else is kept, last cell
    flushed); putting the commas back between the untrimmed cells gives the
    line without its quote characters; there is one cell more than unquoted
    commas; no cell holds a quote character and every cell is trimmed.  The
    quoted example has the header cells [a,b] and [c]. *)
Theorem C2_line_scanner :
  (forall line : str,
     parse_csv_line line = map strip (raw_cells false line)
     /\ join [comma] (raw_cells false line) =
          filter (fun c => negb (c =? quote)%N) line
     /\ List.length (parse_csv_line line) = S (delimiters false line)
     /\ Forall (fun cell => ~ In quote cell /\ trimmed cell) (parse_csv_line line))
  /\ parse_csv_line (lit "a" ++ [quote; quote] ++ lit "b") = [lit "ab"]
  /\ csv_rows quoted_example = [[lit "a,b"; lit "c"]; [lit "1"; lit "2"]]
  /\ parse_csv_to_markdown quoted_example =
       render_table [lit "a,b"; lit "c"] [[lit "1"; lit "2"]].
Proof.
  split; [|repeat split; vm_compute; reflexivity].
  intro line. rewrite parse_csv_line_raw. repeat split.
  - apply raw_cells_join.
  - rewrite length_map. apply raw_cells_length.
  - apply Forall_forall. intros cell Hin.
    apply in_map_iff in Hin as (raw & <- & Hraw).
    split; [|apply strip_trimmed].
    intro Hq. apply In_strip in Hq.
    pose proof (raw_cells_no_quote false line) as Hall.
    rewrite Forall_forall in Hall. exact (Hall raw Hraw Hq).
Qed.

(** ** Strings of the gate and the dispatch *)

Lemma str_eqb_eq (a b : str) : str_eqb a b = true <-> a = b.
Proof.
  unfold str_eqb. destruct (list_eq_dec N.eq_dec a b); split; congruence.
Qed.

Lemma str_eqb_refl (a : str) : str_eqb a a = true.
Proof. now apply str_eqb_eq. Qed.

Lemma mem_In (x : str) (xs : list str) : mem x xs = true <-> In x xs.
Proof.
  unfold mem. rewrite existsb_exists. split.
  - intros (y & Hy & E). apply str_eqb_eq in E. now subst.
  - intro H. exists x. split; [assumption|apply str_eqb_refl].
Qed.

Lemma startswith_app (s prefix : str) :
  startswith s prefix = true <-> exists post, s = prefix ++ post.
Proof.
  revert s. induction prefix as [|p prefix IH]; intro s; simpl.
  - split; [now exists s|reflexivity].
  - destruct s as [|c s]; [split; [discriminate|intros [post H]; discriminate]|].
    rewrite andb_true_iff, N.eqb_eq, IH. split.
    + intros [-> [post ->]]. now exists post.
    + intros [post [= -> ->]]. split; [reflexivity|now exists post].
Qed.

Lemma contains_app (sub s : str) :
  contains sub s = true <-> exists pre post, s = pre ++ sub ++ post.
Proof.
  induction s as [|c s IH].
  - simpl. rewrite orb_false_r, startswith_app. split.
    + intros [post H]. now exists [], post.
    + intros (pre & post & H). symmetry in H.
      apply app_eq_nil in H as [-> H]. apply app_eq_nil in H as [-> ->].
      now exists [].
  - cbn [contains]. rewrite orb_true_iff, startswith_app, IH. split.
    + intros [[post H]|(pre & post & H)].
      * now exists [], post.
      * exists (c :: pre), post. simpl. now rewrite H.
    + intros (pre & post & H). destruct pre as [|x pre]; simpl in H.
      * left. now exists post.
      * right. injection H as _ H. now exists pre, post.
Qed.

Lemma lower_from_fixed (seen sub post : str) :
  forallb lower_fixed sub = true ->
  lower_from seen (sub ++ post) = sub ++ lower_from (seen ++ sub) post.
Proof.
  revert seen. induction sub as [|c sub IH]; intros seen H; simpl.
  - now rewrite app_nil_r.
  - simpl in H. apply andb_prop in H as [Hc H].
    rewrite (IH _ H), <- app_assoc. simpl.
    unfold lower_char, lower_fixed in *.
    apply andb_prop in Hc as [H1 H2]. apply negb_true_iff in H2.
    now rewrite H2, H1.
Qed.

Lemma lower_from_keeps (seen pre sub post : str) :
  forallb lower_fixed sub = true ->
  exists l1 l2, lower_from seen (pre ++ sub ++ post) = l1 ++ sub ++ l2.
Proof.
  intro Hsub. revert seen. induction pre as [|c pre IH]; intro seen; simpl.
  - exists [], (lower_from (seen ++ sub) post).
    now rewrite lower_from_fixed by assumption.
  - destruct (IH (seen ++ [c])) as (l1 & l2 & ->).
    exists (lower_char seen c (pre ++ sub ++ post) ++ l1), l2.
    now rewrite <- app_assoc.
Qed.

Lemma contains_lower (sub s : str) :
  forallb lower_fixed sub = true ->
  contains sub s = true -> contains sub (lower s) = true.
Proof.
  intros Hsub H. apply contains_app in H as (pre & post & ->).
  apply contains_app. unfold lower. now apply lower_from_keeps.
Qed.

(** ** Running the adapters and the handler *)

Lemma try_except_500 {A} (body : M A) (prefix : str) (w : World) :
  let r := try_except body
             (fun e => raise (HTTPException 500 (prefix ++ exn_str e))) w in
  (exists a, fst r = Return a) \/ (exists d, fst r = Raise (HTTPException 500 d)).
Proof.
  unfold try_except, raise. destruct (body w) as [[a|e] w']; simpl; eauto.
Qed.

Lemma pdf_raises (svc : Service) (c : bytes) (n : str) (w w' : World) (e : exn) :
  parse_pdf_with_docling svc c n w = (Raise e, w') ->
  exists d, e = HTTPException 503 d \/ e = HTTPException 500 d.
Proof.
  unfold parse_pdf_with_docling.
  destruct (DOCLING_AVAILABLE svc), (converter svc) as [conv|];
    try (unfold raise; intros [= <- _]; eauto; fail).
  intro H.
  match type of H with try_except ?b _ _ = _ =>
    destruct (try_except_500 b (lit "Failed to parse PDF: ") w) as [[a Ha]|[d Hd]]
  end; cbv zeta in *; rewrite H in *; simpl in *; [discriminate|].
  injection Hd as ->. eauto.
Qed.

Lemma image_raises (svc : Service) (c : bytes) (n : str) (w w' : World) (e : exn) :
  parse_image_with_docling svc c n w = (Raise e, w') ->
  exists d, e = HTTPException 503 d \/ e = HTTPException 500 d.
Proof.
  unfold parse_image_with_docling.
  destruct (DOCLING_AVAILABLE svc), (converter svc) as [conv|];
    try (unfold raise; intros [= <- _]; eauto; fail).
  intro H.
  match type of H with try_except ?b _ _ = _ =>
    destruct (try_except_500 b (lit "Failed to parse image: ") w) as [[a Ha]|[d Hd]]
  end; cbv zeta in *; rewrite H in *; simpl in *; [discriminate|].
  injection Hd as ->. eauto.
Qed.

Lemma gtb_false (a b : Z) : (a <= b)%Z -> (a >? b)%Z = false.
Proof. intro H. rewrite Z.gtb_ltb. apply Z.ltb_ge. exact H. Qed.

Lemma gtb_true (a b : Z) : (b < a)%Z -> (a >? b)%Z = true.
Proof. intro H. rewrite Z.gtb_ltb. apply Z.ltb_lt. exact H. Qed.

Lemma run_too_large (svc : Service) (file : UploadFile) (w : World) :
  (MAX_FILE_SIZE < size_of file)%Z ->
  parse_document svc file w =
  (Raise (HTTPException 400 (too_large_detail (size_of file))), w).
Proof.
  intro H. unfold parse_document, parse_document_body, try_except. cbv zeta.
  fold (size_of file). now rewrite (gtb_true H).
Qed.

Lemma run_gate_rejects (svc : Service) (file : UploadFile) (w : World) :
  within_size_limit file ->
  has_valid_extension (effective_name file) = false ->
  has_valid_type (effective_type file) = false ->
  parse_document svc file w = (Raise (HTTPException 400 unsupported_gate_detail), w).
Proof.
  intros Hs He Ht. unfold parse_document, parse_document_body, try_except. cbv zeta.
  fold (effective_name file) (effective_type file).
  rewrite (gtb_false Hs), He, Ht. reflexivity.
Qed.

Lemma gate_open (name ctype : str) :
  has_valid_extension name = true \/ has_valid_type ctype = true ->
  negb (has_valid_extension name) && negb (has_valid_type ctype) = false.
Proof. intros [-> | ->]; simpl; [reflexivity|apply andb_false_r]. Qed.

Lemma run_csv (svc : Service) (file : UploadFile) (w : World) :
  passes_gate file ->
  csv_condition (effective_name file) (effective_type file) = true ->
  parse_document svc file w = (csv_outcome file, w).
Proof.
  intros [Hs Hg] Hc.
  unfold parse_document, parse_document_body, try_except. cbv zeta.
  fold (effective_name file) (effective_type file).
  rewrite (gtb_false Hs), (gate_open _ _ Hg), Hc.
  unfold csv_branch, csv_outcome, decode, bind, ret, raise.
  now destruct (utf8_decode (map to_N (content file))).
Qed.

Lemma run_pdf (svc : Service) (file : UploadFile) (w : World) :
  passes_gate file ->
  csv_condition (effective_name file) (effective_type file) = false ->
  pdf_condition (effective_name file) (effective_type file) = true ->
  parse_document svc file w =
  adapter_outcome file (lit "application/pdf")
    (parse_pdf_with_docling svc (content file) (effective_name file) w).
Proof.
  intros [Hs Hg] Hc Hp.
  unfold parse_document, parse_document_body, try_except. cbv zeta.
  fold (effective_name file) (effective_type file).
  rewrite (gtb_false Hs), (gate_open _ _ Hg), Hc, Hp.
  unfold bind, ret, adapter_outcome.
  destruct (parse_pdf_with_docling _ _ _ _) as [[md|e] w'] eqn:E; [reflexivity|].
  now destruct (pdf_raises _ _ _ _ E) as [d [-> | ->]].
Qed.

Lemma run_image (svc : Service) (file : UploadFile) (w : World) :
  passes_gate file ->
  csv_condition (effective_name file) (effective_type file) = false ->
  pdf_condition (effective_name file) (effective_type file) = false ->
  image_condition (effective_name file) (effective_type file) = true ->
  parse_document svc file w =
  adapter_outcome file (or_else (Some (effective_type file)) (lit "image"))
    (parse_image_with_docling svc (content file) (effective_name file) w).
Proof.
  intros [Hs Hg] Hc Hp Hi.
  unfold parse_document, parse_document_body, try_except. cbv zeta.
  fold (effective_name file) (effective_type file).
  rewrite (gtb_false Hs), (gate_open _ _ Hg), Hc, Hp, Hi.
  unfold bind, ret, adapter_outcome.
  destruct (parse_image_with_docling _ _ _ _) as [[md|e] w'] eqn:E; [reflexivity|].
  now destruct (image_raises _ _ _ _ E) as [d [-> | ->]].
Qed.

(** Every accepted extension and every accepted type is claimed by a branch. *)
Lemma gate_covered (name ctype : str) :
  has_valid_extension name = true \/ has_valid_type ctype = true ->
  csv_condition name ctype || pdf_condition name ctype
    || image_condition name ctype = true.
Proof.
  unfold has_valid_extension, has_valid_type, csv_condition, pdf_condition,
    image_condition, valid_extensions, valid_types, mem.
  cbn [existsb].
  destruct (endswith (lower name) (lit ".pdf")),
           (endswith (lower name) (lit ".csv")),
           (endswith (lower name) (lit ".png")),
           (endswith (lower name) (lit ".jpg")),
           (endswith (lower name) (lit ".jpeg")); simpl;
    try (intros _; rewrite ?orb_true_r; reflexivity).
  intros [H|H]; [discriminate|].
  repeat (apply orb_true_iff in H as [H|H]);
    try discriminate; apply str_eqb_eq in H; rewrite H; vm_compute; reflexivity.
Qed.

Lemma adapter_outcome_cases (file : UploadFile) (t : str) (r : py_result str * World) :
  (forall e w, r = (Raise e, w) ->
     exists d, e = HTTPException 503 d \/ e = HTTPException 500 d) ->
  (exists resp, fst (adapter_outcome file t r) = Return resp)
  \/ (exists d, fst (adapter_outcome file t r) = Raise (HTTPException 500 d))
  \/ (exists d, fst (adapter_outcome file t r) = Raise (HTTPException 503 d)).
Proof.
  intro H. destruct r as [[md|e] w]; simpl; [eauto|].
  destruct (H e w eq_refl) as [d [-> | ->]]; eauto.
Qed.

(** Every way the request can end. *)
Lemma outcome_cases (svc : Service) (file : UploadFile) (w : World) :
  let r := fst (parse_document svc file w) in
  (exists resp, r = Return resp)
  \/ ((MAX_FILE_SIZE < size_of file)%Z
      /\ r = Raise (HTTPException 400 (too_large_detail (size_of file))))
  \/ (within_size_limit file
      /\ has_valid_extension (effective_name file) = false
      /\ has_valid_type (effective_type file) = false
      /\ r = Raise (HTTPException 400 unsupported_gate_detail))
  \/ (within_size_limit file /\ exists d, r = Raise (HTTPException 500 d))
  \/ (within_size_limit file /\ exists d, r = Raise (HTTPException 503 d)).
Proof.
  cbv zeta.
  destruct (Z.lt_ge_cases MAX_FILE_SIZE (size_of file)) as [Hbig|Hs].
  { rewrite (run_too_large svc file w Hbig). simpl. auto. }
  assert (Hlim : within_size_limit file) by exact Hs.
  destruct (has_valid_extension (effective_name file)) eqn:He.
  2: destruct (has_valid_type (effective_type file)) eqn:Ht.
  3: { rewrite (run_gate_rejects svc w Hlim He Ht). simpl. auto 10. }
  all: assert (Hg : passes_gate file) by (split; auto).
  all: pose proof (gate_covered (effective_name file) (effective_type file)) as Hcov.
  all: destruct (csv_condition (effective_name file) (effective_type file)) eqn:Hc;
    [ rewrite (run_csv svc w Hg Hc); unfold csv_outcome; simpl;
      destruct (utf8_decode _); simpl; eauto 10 | ].
  all: destruct (pdf_condition (effective_name file) (effective_type file)) eqn:Hp;
    [ rewrite (run_pdf svc w Hg Hc Hp);
      edestruct adapter_outcome_cases as [H|[H|H]];
      [ intros e w'; apply pdf_raises | eauto | eauto 10 | eauto 10 ] | ].
  all: destruct (image_condition (effective_name file) (effective_type file)) eqn:Hi;
    [ rewrite (run_image svc w Hg Hc Hp Hi);
      edestruct adapter_outcome_cases as [H|[H|H]];
      [ intros e w'; apply image_raises | eauto | eauto 10 | eauto 10 ] | ].
  all: simpl in Hcov; rewrite ?He, ?Ht in Hcov;
    discriminate Hcov; auto.
Qed.

(** ** The size message *)

Lemma round53_exact (n : Z) : (0 <= n < 2 ^ 53)%Z -> Float.round53 n = n.
Proof.
  intros [H0 H]. unfold Float.round53.
  assert (Z.log2 n < 53)%Z.
  { destruct (Z.eq_dec n 0) as [->|Hn]; [reflexivity|].
    apply Z.log2_lt_pow2; lia. }
  destruct (Z.leb_spec (Z.log2 n + 1 - 53) 0); [reflexivity|lia].
Qed.

Lemma round_div_nearest (a b : Z) :
  (0 < b)%Z -> (2 * Z.abs (a - Float.round_div a b * b) <= b)%Z.
Proof.
  intro Hb. unfold Float.round_div.
  pose proof (Z.div_mod a b ltac:(lia)) as E.
  pose proof (Z.mod_pos_bound a b Hb) as R.
  destruct (Z.ltb_spec (2 * (a mod b)) b); [nia|].
  destruct (Z.ltb_spec b (2 * (a mod b))); [nia|].
  destruct (Z.even (a / b)); nia.
Qed.

Lemma too_large_detail_head (size : Z) :
  hd_error (too_large_detail size) = Some 70%N.
Proof. reflexivity. Qed.

Lemma too_large_not_gate (size : Z) : too_large_detail size <> unsupported_gate_detail.
Proof.
  intro H. pose proof (too_large_detail_head size) as E.
  rewrite H in E. discriminate E.
Qed.

(** C3. The request is refused for its size exactly when the content is
    longer than 10,485,760 bytes, with status 400 and a message that gives
    the size in MiB rounded to two decimals; 10,485,761 bytes are refused
    (as 10.00MB) and 10,485,760 bytes are not. *)
Theorem C3_size_gate :
  (forall (svc : Service) (file : UploadFile) (w : World),
     (file_too_large (fst (parse_document svc file w))
      <-> (10485760 < size_of file)%Z)
     /\ ((10485760 < size_of file)%Z ->
         parse_document svc file w =
         (Raise (HTTPException 400 (too_large_detail (size_of file))), w)))
  /\ (forall size : Z, (0 <= size < 2 ^ 53)%Z ->
        let hundredths := Float.round_div (size * 100) (2 ^ 20) in
        too_large_detail size =
          lit "File size exceeds 10MB limit. Your file is "
            ++ (decimal (Z.to_N (hundredths / 100)) ++ lit "."
                  ++ two_digits (hundredths mod 100))
            ++ lit "MB. Please upload a smaller file."
        /\ (2 * Z.abs (size * 100 - hundredths * 2 ^ 20) <= 2 ^ 20)%Z)
  /\ (forall (svc : Service) (file : UploadFile) (w : World),
        size_of file = 10485761%Z ->
        parse_document svc file w =
        (Raise (HTTPException 400
                  (lit "File size exceeds 10MB limit. Your file is 10.00MB. Please upload a smaller file.")),
         w))
  /\ (forall (svc : Service) (file : UploadFile) (w : World),
        size_of file = 10485760%Z ->
        ~ file_too_large (fst (parse_document svc file w))).
Proof.
  assert (Hiff : forall svc file w,
            file_too_large (fst (parse_document svc file w))
            <-> (10485760 < size_of file)%Z).
  { intros svc file w. split.
    - intros [size Hr].
      destruct (outcome_cases svc file w) as
        [[resp H]|[[Hbig _]|[(_ & _ & _ & H)|[[_ [d H]]|[_ [d H]]]]]];
        cbv zeta in *; try exact Hbig; rewrite H in Hr; try discriminate Hr;
        injection Hr as Hr; symmetry in Hr; now apply too_large_not_gate in Hr.
    - intro Hbig. rewrite (run_too_large svc file w Hbig). now exists (size_of file). }
  repeat apply conj.
  - intros svc file w. split; [apply Hiff|apply run_too_large].
  - intros size Hsize hundredths. split.
    + unfold too_large_detail, Float.format_2f, Float.div_pow2,
        Float.int_div_pow2, two_digits. simpl Float.mant. simpl Float.scale.
      rewrite (round53_exact Hsize). reflexivity.
    + apply round_div_nearest. reflexivity.
  - intros svc file w Hsize.
    rewrite run_too_large by (rewrite Hsize; reflexivity).
    rewrite Hsize. vm_compute. reflexivity.
  - intros svc file w Hsize H. apply Hiff in H. rewrite Hsize in H. lia.
Qed.

(** C4. A file within the size limit is refused by the type check (status
    400, the "Only PNG, JPG, CSV, and PDF" message) exactly when the
    lower-cased name ends in none of the five extensions and the lower-cased
    declared type is none of the five types; one of the two is enough to
    pass.  [report.txt] declared as [text/plain] is refused. *)
Theorem C4_type_gate (svc : Service) (file : UploadFile) (w : World) :
  within_size_limit file ->
  (fst (parse_document svc file w) = Raise (HTTPException 400 unsupported_gate_detail)
   <-> (forall ext, In ext valid_extensions ->
          endswith (lower (effective_name file)) ext = false)
       /\ ~ In (lower (effective_type file)) valid_types)
  /\ (forall other : UploadFile,
        filename other = Some (lit "report.txt") ->
        content_type other = Some (lit "text/plain") ->
        within_size_limit other ->
        parse_document svc other w =
        (Raise (HTTPException 400 unsupported_gate_detail), w)).
Proof.
  intro Hs.
  assert (Hext : forall name, has_valid_extension name = false <->
            forall ext, In ext valid_extensions -> endswith (lower name) ext = false).
  { intro name. unfold has_valid_extension. split.
    - intros H ext Hin. destruct (endswith (lower name) ext) eqn:E; [|reflexivity].
      rewrite <- H. symmetry. apply existsb_exists. eauto.
    - intro H. destruct (existsb _ _) eqn:E; [|reflexivity].
      apply existsb_exists in E as (ext & Hin & E). now rewrite (H ext Hin) in E. }
  assert (Htype : forall ctype, has_valid_type ctype = false <->
            ~ In (lower ctype) valid_types).
  { intro ctype. unfold has_valid_type. rewrite <- mem_In.
    now destruct (mem _ _). }
  split.
  - rewrite <- Hext, <- Htype. split.
    + intro Hr.
      destruct (outcome_cases svc file w) as
        [[resp H]|[[Hbig H]|[(_ & He & Ht & _)|[[_ [d H]]|[_ [d H]]]]]];
        cbv zeta in *; try (now split); try (rewrite H in Hr; discriminate Hr).
      all: unfold within_size_limit in Hs; fold (size_of file) in Hs; lia.
    + intros [He Ht]. now rewrite (run_gate_rejects svc w Hs He Ht).
  - intros other Hn Ht Hso. apply run_gate_rejects; [assumption| |];
      unfold effective_name, effective_type; rewrite ?Hn, ?Ht;
      vm_compute; reflexivity.
Qed.

(** C8. A name or type the gate accepts satisfies the condition of the CSV,
    the PDF or the image branch, so the last [else] of the dispatch is never
    taken: no request ends with its "Unsupported file type" rejection. *)
Theorem C8_dispatch_else_unreachable :
  (forall name ctype : str,
     has_valid_extension name = true \/ has_valid_type ctype = true ->
     csv_condition name ctype = true \/ pdf_condition name ctype = true
     \/ image_condition name ctype = true)
  /\ (forall (svc : Service) (file : UploadFile) (w : World),
        fst (parse_document svc file w)
        <> Raise (HTTPException 400 unsupported_dispatch_detail)).
Proof.
  split.
  - intros name ctype H. apply gate_covered in H.
    apply orb_true_iff in H as [H|H]; [apply orb_true_iff in H|]; tauto.
  - intros svc file w Hr.
    destruct (outcome_cases svc file w) as
      [[resp H]|[[_ H]|[(_ & _ & _ & H)|[[_ [d H]]|[_ [d H]]]]]];
      cbv zeta in *; rewrite H in Hr; try discriminate Hr.
    all: injection Hr as Hr;
      pose proof (too_large_detail_head (size_of file)) as E;
      rewrite Hr in E; discriminate E.
Qed.

(** C5. The CSV branch comes first.  A file that passes the gate and whose
    lower-cased name ends in [.csv], or whose declared type contains [csv],
    ends on the CSV path: the world is left as it was and a success response
    carries the formatter's table and the file type [text/csv], whatever the
    PDF and image conditions are (so also for [data.csv] declared as
    [image/png]).  The PDF adapter is reached only when the CSV condition
    fails, the image adapter only when the PDF condition fails too. *)
Theorem C5_csv_branch_first (svc : Service) (file : UploadFile) (w : World) :
  passes_gate file ->
  let name := effective_name file in
  let ctype := effective_type file in
  ((endswith (lower name) (lit ".csv") = true \/ contains (lit "csv") ctype = true) ->
     csv_condition name ctype = true
     /\ parse_document svc file w = (csv_outcome file, w)
     /\ (forall resp, fst (parse_document svc file w) = Return resp ->
           fileType (metadata resp) = lit "text/csv"
           /\ exists text, utf8_decode (map Byte.to_N (content file)) = Some text
                           /\ markdown resp = parse_csv_to_markdown text))
  /\ (csv_condition name ctype = false -> pdf_condition name ctype = true ->
        parse_document svc file w =
        adapter_outcome file (lit "application/pdf")
          (parse_pdf_with_docling svc (content file) name w))
  /\ (csv_condition name ctype = false -> pdf_condition name ctype = false ->
        image_condition name ctype = true ->
        parse_document svc file w =
        adapter_outcome file (or_else (Some ctype) (lit "image"))
          (parse_image_with_docling svc (content file) name w))
  /\ (let other := upload (Some (lit "data.csv")) (Some (lit "image/png")) "a,b" in
      image_condition (effective_name other) (effective_type other) = true
      /\ parse_document svc other w =
         (Return (response other
                    (render_table [lit "a"; lit "b"] []) (lit "text/csv")), w)).
Proof.
  intros Hg name ctype. repeat apply conj.
  - intro H.
    assert (Hc : csv_condition name ctype = true).
    { unfold csv_condition. apply orb_true_iff.
      destruct H as [H|H]; [now left|right].
      now apply contains_lower. }
    split; [exact Hc|]. split; [now apply run_csv|].
    intros resp Hr. rewrite (run_csv svc w Hg Hc) in Hr.
    unfold csv_outcome in Hr. simpl in Hr.
    destruct (utf8_decode _) as [text|]; [|discriminate Hr].
    injection Hr as <-. split; [reflexivity|]. now exists text.
  - now apply run_pdf.
  - now apply run_image.
  - vm_compute. reflexivity.
  - rewrite run_csv.
    + vm_compute. reflexivity.
    + split; [vm_compute; discriminate|left; vm_compute; reflexivity].
    + vm_compute. reflexivity.
Qed.

(** C9. A file on the CSV branch whose bytes are not valid UTF-8 ends the
    request with status 500 and a detail that starts with "Failed to parse
    document:" (the decode error reaches only the general handler); the world
    is unchanged. *)
Theorem C9_invalid_utf8_is_500 (svc : Service) (file : UploadFile) (w : World) :
  passes_gate file ->
  csv_condition (effective_name file) (effective_type file) = true ->
  ~ valid_utf8 (content file) ->
  exists detail,
    parse_document svc file w = (Raise (HTTPException 500 detail), w)
    /\ detail = lit "Failed to parse document: " ++ utf8_error_message (content file)
    /\ startswith detail (lit "Failed to parse document:") = true.
Proof.
  intros Hg Hc Hbad.
  exists (lit "Failed to parse document: " ++ utf8_error_message (content file)).
  split; [|split; reflexivity].
  rewrite (run_csv svc w Hg Hc). unfold csv_outcome.
  unfold valid_utf8 in Hbad.
  destruct (utf8_decode _); [|reflexivity].
  exfalso. apply Hbad. discriminate.
Qed.

(** C10. Without a file name the handler works with the name [document] (and
    with the empty string for a missing content type).  Such a file declared
    as [text/csv] has no accepted extension, passes the gate by its type, takes
    the CSV path, and a success response reports the file name [document], the
    type [text/csv] and the byte length of the upload. *)
Theorem C10_missing_filename (svc : Service) (file : UploadFile) (w : World) :
  filename file = None ->
  effective_name file = lit "document"
  /\ (content_type file = None -> effective_type file = [])
  /\ (content_type file = Some (lit "text/csv") -> within_size_limit file ->
      has_valid_extension (effective_name file) = false
      /\ has_valid_type (effective_type file) = true
      /\ csv_condition (effective_name file) (effective_type file) = true
      /\ parse_document svc file w = (csv_outcome file, w)
      /\ (forall text, utf8_decode (map Byte.to_N (content file)) = Some text ->
            parse_document svc file w =
            (Return {| success := true;
                       markdown := parse_csv_to_markdown text;
                       metadata :=
                         {| fileName := lit "document";
                            fileType := lit "text/csv";
                            fileSize := Z.of_nat (List.length (content file)) |} |},
             w))).
Proof.
  intro Hn.
  assert (En : effective_name file = lit "document")
    by (unfold effective_name; now rewrite Hn).
  split; [exact En|]. split.
  - intro Ht. unfold effective_type. now rewrite Ht.
  - intros Ht Hs.
    assert (Et : effective_type file = lit "text/csv")
      by (unfold effective_type; now rewrite Ht).
    assert (Hv : has_valid_type (effective_type file) = true)
      by (rewrite Et; vm_compute; reflexivity).
    assert (Hc : csv_condition (effective_name file) (effective_type file) = true)
      by (rewrite En, Et; vm_compute; reflexivity).
    assert (Hg : passes_gate file) by (split; auto).
    repeat apply conj; try assumption.
    + rewrite En. vm_compute. reflexivity.
    + now apply run_csv.
    + intros text Hd. rewrite (run_csv svc w Hg Hc).
      unfold csv_outcome, response, size_of. now rewrite Hd, En.
Qed.

(** ** The adapters *)

Lemma startup_failed (import_ok : bool) (construct : outcome DocumentConverter) :
  import_ok = false \/ (exists e, construct = Throws e) ->
  DOCLING_AVAILABLE (startup import_ok construct) = false
  /\ converter (startup import_ok construct) = None.
Proof.
  unfold startup. intros [-> | [e ->]]; [now split|].
  now destruct import_ok.
Qed.

(** C6. With the converter unavailable (the flag is off or there is no
    converter, as after a failed import or a failed construction at start),
    both adapters raise status 503 at once and leave the world as it was: no
    temporary file is created and the converter is not called.  A request
    that reaches the PDF or the image branch therefore ends with 503 and an
    unchanged world. *)
Theorem C6_unavailable_is_503 (svc : Service) :
  DOCLING_AVAILABLE svc = false \/ converter svc = None ->
  (forall (file_content : bytes) (name : str) (w : World),
     parse_pdf_with_docling svc file_content name w =
       (Raise (HTTPException 503
                 (lit "Docling is not available. Please install docling: pip install docling")),
        w)
     /\ parse_image_with_docling svc file_content name w =
       (Raise (HTTPException 503
                 (lit "Image parsing is currently unavailable. Docling service is not initialized. Please contact support or try uploading a CSV file instead.")),
        w))
  /\ (forall (file : UploadFile) (w : World),
        passes_gate file ->
        csv_condition (effective_name file) (effective_type file) = false ->
        pdf_condition (effective_name file) (effective_type file) = true
        \/ image_condition (effective_name file) (effective_type file) = true ->
        exists detail,
          parse_document svc file w = (Raise (HTTPException 503 detail), w)
          /\ files (snd (parse_document svc file w)) = files w
          /\ log (snd (parse_document svc file w)) = log w)
  /\ (forall (import_ok : bool) (construct : outcome DocumentConverter),
        import_ok = false \/ (exists e, construct = Throws e) ->
        DOCLING_AVAILABLE (startup import_ok construct) = false
        /\ converter (startup import_ok construct) = None).
Proof.
  intro Hun.
  assert (Hadapters : forall (file_content : bytes) (name : str) (w : World),
     parse_pdf_with_docling svc file_content name w =
       (Raise (HTTPException 503
                 (lit "Docling is not available. Please install docling: pip install docling")),
        w)
     /\ parse_image_with_docling svc file_content name w =
       (Raise (HTTPException 503
                 (lit "Image parsing is currently unavailable. Docling service is not initialized. Please contact support or try uploading a CSV file instead.")),
        w)).
  { intros file_content name w.
    unfold parse_pdf_with_docling, parse_image_with_docling.
    destruct Hun as [-> | ->]; [now split|].
    now destruct (DOCLING_AVAILABLE svc). }
  split; [exact Hadapters|]. split; [|exact startup_failed].
  intros file w Hg Hc Hbranch.
  destruct (pdf_condition (effective_name file) (effective_type file)) eqn:Hp.
  - rewrite (run_pdf svc w Hg Hc Hp).
    destruct (Hadapters (content file) (effective_name file) w) as [-> _].
    simpl. eauto.
  - destruct Hbranch as [Hb|Hi]; [discriminate Hb|].
    rewrite (run_image svc w Hg Hc Hp Hi).
    destruct (Hadapters (content file) (effective_name file) w) as [_ ->].
    simpl. eauto.
Qed.






(** C7. The temporary file is not removed on every exit: when the write into
    it fails (here: no room on the device), the adapter leaves through its
    [except] clause with status 500 before the guarded block with the
    [finally] clean-up is entered, and the file it created stays.  Shown for
    both adapters on a four-byte upload. *)
Theorem C7_temp_file_left_when_write_fails :
  parse_pdf_with_docling available_service (encode_ascii "%PDF") (lit "a.pdf")
    full_world =
  (Raise (HTTPException 500
            (lit "Failed to parse PDF: [Errno 28] No space left on device")),
   {| files := [lit "/tmp/tmpk3x.pdf"]; free_space := 0; tmp_names := [];
      log := [EvCreate (lit "/tmp/tmpk3x.pdf"); EvWrite (lit "/tmp/tmpk3x.pdf")] |})
  /\ parse_image_with_docling available_service (encode_ascii "GIF8")
       (lit "scan.png") full_world =
  (Raise (HTTPException 500
            (lit "Failed to parse image: [Errno 28] No space left on device")),
   {| files := [lit "/tmp/tmpk3x.png"]; free_space := 0; tmp_names := [];
      log := [EvCreate (lit "/tmp/tmpk3x.png"); EvWrite (lit "/tmp/tmpk3x.png")] |}).
Proof. split; vm_compute; reflexivity. Qed.

(** * Further properties *)

(** ** The formatter on blank text, on lines, and line by line *)

Lemma lstrip_nil (s : str) : lstrip s = [] <-> all_space s = true.
Proof.
  unfold all_space. induction s as [|c rest IH]; simpl; [tauto|].
  destruct (is_space c); simpl; [exact IH|]. split; discriminate.
Qed.

Lemma lstrip_idem (s : str) : lstrip (lstrip s) = lstrip s.
Proof.
  induction s as [|c rest IH]; simpl; [reflexivity|].
  destruct (is_space c) eqn:E; [exact IH|]. simpl. now rewrite E.
Qed.

Lemma all_space_rev (s : str) : all_space (rev s) = all_space s.
Proof.
  unfold all_space. destruct (forallb is_space s) eqn:E.
  - apply forallb_forall. intros x Hx. apply in_rev in Hx.
    rewrite forallb_forall in E. now apply E.
  - destruct (forallb is_space (rev s)) eqn:E'; [|reflexivity].
    rewrite <- E. symmetry. apply forallb_forall. intros x Hx.
    rewrite forallb_forall in E'. apply E'. now apply in_rev in Hx.
Qed.

Lemma strip_nil (s : str) : strip s = [] <-> all_space s = true.
Proof.
  unfold strip, rstrip. split.
  - intro H. apply (f_equal (@rev char)) in H. rewrite rev_involutive in H.
    simpl in H. apply lstrip_nil in H. rewrite all_space_rev in H.
    apply lstrip_nil in H. rewrite lstrip_idem in H. now apply lstrip_nil.
  - intro H. apply lstrip_nil in H. now rewrite H.
Qed.

Lemma split_cons (sep : char) (s : str) :
  exists piece pieces, split sep s = piece :: pieces.
Proof.
  induction s as [|c rest (piece & pieces & IH)]; simpl; [now eauto|].
  destruct (c =? sep)%N; [now eauto|]. rewrite IH. eauto.
Qed.

Lemma split_app (sep : char) (a b : str) :
  split sep (a ++ sep :: b) = split sep a ++ split sep b.
Proof.
  induction a as [|c a IH]; simpl.
  - now rewrite N.eqb_refl.
  - destruct (c =? sep)%N; rewrite IH; [reflexivity|].
    now destruct (split_cons sep a) as (piece & pieces & ->).
Qed.

Lemma split_all_space (s : str) :
  all_space s = true <->
  Forall (fun piece => all_space piece = true) (split newline s).
Proof.
  unfold all_space. induction s as [|c rest IH]; simpl.
  - split; [repeat constructor|reflexivity].
  - destruct (c =? newline)%N eqn:E.
    + apply N.eqb_eq in E. subst c.
      change (is_space newline) with true. simpl. rewrite IH.
      split; [now constructor|now inversion 1].
    + destruct (split_cons newline rest) as (piece & pieces & Hs).
      rewrite Hs in *. rewrite andb_true_iff, IH. split.
      * intros [Hc H]. inversion H; subst. constructor; [|assumption].
        simpl. now rewrite Hc.
      * intro H. inversion H as [|? ? H1 H2]; subst. simpl in H1.
        apply andb_prop in H1 as [Hc H1]. split; [assumption|now constructor].
Qed.

Lemma csv_lines_nil (csv : str) : csv_lines csv = [] <-> all_space csv = true.
Proof.
  rewrite split_all_space. unfold csv_lines.
  induction (split newline csv) as [|piece pieces IH]; simpl.
  - split; [constructor|reflexivity].
  - destruct (strip piece) eqn:E; simpl.
    + apply strip_nil in E. rewrite IH. split; [now constructor|now inversion 1].
    + split; [discriminate|]. inversion 1 as [|? ? H1 _]; subst.
      apply strip_nil in H1. congruence.
Qed.

Lemma parse_by_lines (a b : str) :
  csv_lines a = csv_lines b -> parse_csv_to_markdown a = parse_csv_to_markdown b.
Proof. unfold parse_csv_to_markdown. now intros ->. Qed.

Lemma csv_lines_app (a b : str) :
  csv_lines (a ++ nl ++ b) = csv_lines a ++ csv_lines b.
Proof.
  unfold csv_lines, nl. simpl app.
  now rewrite split_app, filter_app, map_app.
Qed.

(** X1. The formatter returns the empty string exactly when the text holds
    nothing but whitespace; otherwise the output starts with the heading. *)
Theorem csv_empty_iff_blank (csv : str) :
  (parse_csv_to_markdown csv = [] <-> all_space csv = true)
  /\ (all_space csv = false ->
      exists table, parse_csv_to_markdown csv =
                    lit "## Document Data" ++ nl ++ nl ++ table).
Proof.
  rewrite <- csv_lines_nil, parse_csv_to_markdown_table. unfold csv_rows.
  destruct (csv_lines csv) as [|l ls] eqn:E; simpl map.
  - split; [split; reflexivity|]. intro H.
    assert (all_space csv = true) by now apply csv_lines_nil.
    congruence.
  - split; [split; discriminate|].
    intros _. unfold render_table. eexists. reflexivity.
Qed.

(** X2. Lines are taken one by one: the lines of [a], a line end, then [b]
    are the lines of [a] followed by those of [b].  So a line end at the end
    of the text, and any whitespace-only lines between two parts, do not
    change the table. *)
Theorem csv_blank_lines_ignored (a b blank : str) :
  csv_lines (a ++ nl ++ b) = csv_lines a ++ csv_lines b
  /\ parse_csv_to_markdown (a ++ nl) = parse_csv_to_markdown a
  /\ (all_space blank = true ->
      parse_csv_to_markdown (a ++ nl ++ blank ++ nl ++ b) =
      parse_csv_to_markdown (a ++ nl ++ b)).
Proof.
  split; [apply csv_lines_app|]. split.
  - apply parse_by_lines.
    replace (a ++ nl) with (a ++ nl ++ []) by reflexivity.
    rewrite csv_lines_app. apply app_nil_r.
  - intro H. apply parse_by_lines. rewrite !csv_lines_app.
    apply csv_lines_nil in H. now rewrite H.
Qed.

(** ** The line scanner on plain, quoted and rebuilt lines *)

Lemma raw_cells_plain (line : str) :
  ~ In quote line -> raw_cells false line = split comma line.
Proof.
  induction line as [|c rest IH]; intro Hq; simpl; [reflexivity|].
  destruct (c =? quote)%N eqn:E.
  - apply N.eqb_eq in E. exfalso. apply Hq. now left.
  - rewrite andb_true_r, IH by (intro H; apply Hq; now right).
    reflexivity.
Qed.

Lemma raw_cells_quoted (rest : str) :
  ~ In quote rest -> raw_cells true rest = [rest].
Proof.
  induction rest as [|c rest IH]; intro Hq; simpl; [reflexivity|].
  destruct (c =? quote)%N eqn:E.
  - apply N.eqb_eq in E. exfalso. apply Hq. now left.
  - rewrite andb_false_r, IH by (intro H; apply Hq; now right).
    reflexivity.
Qed.

(** X3. On a line without quote characters the scanner is [split(',')]
    followed by trimming each piece; a line that opens a quote and never
    closes it is a single cell, commas included. *)
Theorem scanner_without_and_with_open_quote (line : str) :
  ~ In quote line ->
  parse_csv_line line = map strip (split comma line)
  /\ parse_csv_line (quote :: line) = [strip line].
Proof.
  intro Hq. rewrite !parse_csv_line_raw. split.
  - now rewrite raw_cells_plain.
  - simpl. now rewrite raw_cells_quoted.
Qed.

Lemma lstrip_id (s : str) :
  (forall c, hd_error s = Some c -> is_space c = false) -> lstrip s = s.
Proof.
  destruct s as [|c rest]; simpl; [reflexivity|].
  intro H. now rewrite (H c eq_refl).
Qed.

Lemma strip_id (s : str) : trimmed s -> strip s = s.
Proof.
  intros [H1 H2]. unfold strip, rstrip.
  rewrite (lstrip_id s H1), (lstrip_id (rev s) H2). apply rev_involutive.
Qed.

Lemma split_none (sep : char) (s : str) : ~ In sep s -> split sep s = [s].
Proof.
  induction s as [|c rest IH]; intro H; simpl; [reflexivity|].
  destruct (c =? sep)%N eqn:E.
  - apply N.eqb_eq in E. exfalso. apply H. now left.
  - rewrite IH by (intro Hin; apply H; now right). reflexivity.
Qed.

Lemma split_join (sep : char) (cells : list str) :
  cells <> [] -> Forall (fun cell => ~ In sep cell) cells ->
  split sep (join [sep] cells) = cells.
Proof.
  induction cells as [|cell cells IH]; intros Hne Hall; [contradiction|].
  inversion Hall as [|? ? H1 H2]; subst.
  destruct cells as [|next cells].
  - simpl. now apply split_none.
  - change (join [sep] (cell :: next :: cells))
      with (cell ++ sep :: join [sep] (next :: cells)).
    rewrite split_app, split_none, IH by (assumption || discriminate).
    reflexivity.
Qed.

Lemma join_no_quote (cells : list str) :
  Forall (fun cell => ~ In quote cell) cells -> ~ In quote (join [comma] cells).
Proof.
  induction cells as [|cell cells IH]; intro Hall; [intros []|].
  inversion Hall as [|? ? H1 H2]; subst.
  destruct cells as [|next cells]; [exact H1|].
  change (join [comma] (cell :: next :: cells))
    with (cell ++ comma :: join [comma] (next :: cells)).
  intro Hin. apply in_app_or in Hin as [Hin|[Hin|Hin]].
  - now apply H1.
  - discriminate Hin.
  - now apply (IH H2).
Qed.

(** X4. Cells written out with commas between them are read back unchanged:
    for a non-empty row of trimmed cells that hold no comma and no quote,
    scanning their comma-joined line gives the row again. *)
Theorem scanner_reads_back_joined_row (cells : list str) :
  cells <> [] ->
  Forall (fun cell => trimmed cell /\ ~ In comma cell /\ ~ In quote cell) cells ->
  parse_csv_line (join [comma] cells) = cells.
Proof.
  intros Hne Hall.
  assert (Hq : Forall (fun cell => ~ In quote cell) cells)
    by (eapply Forall_impl; [|exact Hall]; intros cell (_ & _ & H); exact H).
  assert (Hc : Forall (fun cell => ~ In comma cell) cells)
    by (eapply Forall_impl; [|exact Hall]; intros cell (_ & H & _); exact H).
  rewrite parse_csv_line_raw, raw_cells_plain by now apply join_no_quote.
  rewrite split_join by assumption.
  clear Hne Hq Hc. induction Hall as [|cell cells [Ht _] _ IH]; simpl;
    [reflexivity|].
  now rewrite IH, strip_id.
Qed.



(** ** One output line per row *)

(** A code point is not in a given literal. *)
Ltac absent :=
  let H := fresh in
  intro H; vm_compute in H;
  repeat (destruct H as [H|H]; [discriminate H|]); destruct H.

Lemma split_no_sep (sep : char) (s : str) :
  Forall (fun piece => ~ In sep piece) (split sep s).
Proof.
  induction s as [|c rest IH]; simpl.
  - constructor; [intros []|constructor].
  - destruct (c =? sep)%N eqn:E.
    + constructor; [intros []|exact IH].
    + destruct (split_cons sep rest) as (piece & pieces & Hs).
      rewrite Hs in *. inversion IH; subst.
      constructor; [|assumption].
      intros [Hc|Hin]; [|contradiction].
      subst c. now rewrite N.eqb_refl in E.
Qed.

Lemma raw_cells_In (q : bool) (line cell : str) (c : char) :
  In cell (raw_cells q line) -> In c cell -> In c line.
Proof.
  revert q cell. induction line as [|x rest IH]; intros q cell; simpl.
  - intros [H1|[]] H2. subst cell. destruct H2.
  - destruct (x =? quote)%N; [intros H1 H2; right; eauto|].
    destruct ((x =? comma)%N && negb q).
    + intros [H1|H1] H2; [subst cell; destruct H2|right; eauto].
    + destruct (raw_cells_cons q rest) as (first & others & Hr).
      rewrite Hr in *. intros [H1|H1] H2.
      * subst cell. destruct H2 as [H2|H2]; [now left|right].
        apply (IH q first); [rewrite Hr; now left|assumption].
      * right. apply (IH q cell); [rewrite Hr; now right|assumption].
Qed.

Lemma rows_no_newline (csv : str) (row : list str) (cell : str) :
  In row (csv_rows csv) -> In cell row -> ~ In newline cell.
Proof.
  unfold csv_rows, csv_lines. intros Hrow Hcell Hin.
  apply in_map_iff in Hrow as (line & <- & Hline).
  apply in_map_iff in Hline as (piece & <- & Hpiece).
  apply filter_In in Hpiece as [Hpiece _].
  rewrite parse_csv_line_raw in Hcell.
  apply in_map_iff in Hcell as (raw & <- & Hraw).
  apply In_strip in Hin. apply (@raw_cells_In _ _ _ _ Hraw) in Hin.
  apply In_strip in Hin.
  pose proof (split_no_sep newline csv) as Hall.
  rewrite Forall_forall in Hall. exact (Hall piece Hpiece Hin).
Qed.

Lemma line_ends_app (a b : str) : line_ends (a ++ b) = line_ends a + line_ends b.
Proof. apply count_occ_app. Qed.

Lemma line_ends_none (s : str) : ~ In newline s -> line_ends s = 0.
Proof. apply count_occ_not_In. Qed.

Lemma line_ends_join (sep : str) (cells : list str) :
  line_ends sep = 0 -> (forall cell, In cell cells -> ~ In newline cell) ->
  line_ends (join sep cells) = 0.
Proof.
  intros Hsep. induction cells as [|cell cells IH]; intro H; [reflexivity|].
  assert (Hc : line_ends cell = 0) by (apply line_ends_none, H; now left).
  destruct cells as [|next cells]; [exact Hc|].
  change (join sep (cell :: next :: cells))
    with (cell ++ sep ++ join sep (next :: cells)).
  rewrite !line_ends_app, Hc, Hsep, IH; [reflexivity|].
  intros c Hin. apply H. now right.
Qed.

Lemma line_ends_row (row : list str) :
  (forall cell, In cell row -> ~ In newline cell) -> line_ends (row_line row) = 1.
Proof.
  intro H. unfold row_line. rewrite !line_ends_app, line_ends_join by easy.
  reflexivity.
Qed.

Lemma line_ends_separator (headers : list str) :
  line_ends (separator_line headers) = 1.
Proof.
  unfold separator_line. rewrite !line_ends_app, line_ends_join; [reflexivity..|].
  intros cell Hin. apply in_map_iff in Hin as (h & <- & _).
  absent.
Qed.

Lemma line_ends_rows (rows : list (list str)) :
  (forall row cell, In row rows -> In cell row -> ~ In newline cell) ->
  line_ends (List.concat (map row_line rows)) = List.length rows.
Proof.
  induction rows as [|row rows IH]; intro H; [reflexivity|].
  cbn [map List.concat List.length].
  rewrite line_ends_app, line_ends_row, IH; [reflexivity| |].
  - intros r c Hr. apply H. now right.
  - intros c. apply H. now left.
Qed.

(** X6. Every row of the table is exactly one line: the output of a
    non-blank text holds four line ends for the heading, the blank line, the
    header row and the separator, and one more for each data row kept; no
    cell ever holds a line end. *)
Theorem table_has_one_line_per_row (csv : str) :
  line_ends (parse_csv_to_markdown csv) =
    (if all_space csv then 0 else 4 + List.length (kept_rows csv))
  /\ (forall row cell, In row (csv_rows csv) -> In cell row -> ~ In newline cell).
Proof.
  split; [|intros row cell; apply rows_no_newline].
  destruct (all_space csv) eqn:E.
  - apply csv_lines_nil in E. unfold parse_csv_to_markdown. now rewrite E.
  - rewrite parse_csv_to_markdown_table. unfold kept_rows.
    pose proof (@rows_no_newline csv) as Hno.
    destruct (csv_rows csv) as [|headers rest] eqn:Hrows.
    + exfalso. unfold csv_rows in Hrows. apply map_eq_nil in Hrows.
      apply csv_lines_nil in Hrows. congruence.
    + unfold render_table.
      rewrite !line_ends_app, line_ends_row, line_ends_separator, line_ends_rows.
      * reflexivity.
      * intros row cell Hr Hc. apply filter_In in Hr as [Hr _].
        apply (Hno row cell); [now right|assumption].
      * intros cell Hc. apply (Hno headers cell); [now left|assumption].
Qed.

(** ** The adapters step by step *)

Lemma adapter_run (conv : DocumentConverter) (suffix prefix placeholder : str)
    (file_content : bytes) (w : World) (p : path) (rest : list str)
    (o : outcome ConversionResult) (fs : list path) :
  draw_name (tmp_names w) suffix (files w) = Some (p, rest) ->
  (N.of_nat (List.length file_content) <= free_space w)%N ->
  convert_fn conv p (p :: files w) = (o, fs) ->
  try_except
    (tmp_path <- (tmp_file <- NamedTemporaryFile suffix ;;
                  write_file tmp_file file_content ;;;
                  ret tmp_file) ;;
     try_finally
       (r <- convert conv tmp_path ;;
        markdown <- extract_markdown r ;;
        ret (if truthy markdown then markdown else placeholder))
       (cleanup tmp_path))
    (fun e => raise (HTTPException 500 (prefix ++ exn_str e))) w
  = (adapter_answer prefix (converted o placeholder),
     world_after w p rest (N.of_nat (List.length file_content)) fs).
Proof.
  intros Hdraw Hroom Hconv. apply N.leb_le in Hroom.
  unfold try_except, bind, NamedTemporaryFile, write_file, ret.
  rewrite Hdraw. cbn [free_space files tmp_names log]. rewrite Hroom.
  unfold try_finally, bind, convert, cleanup, path_exists, unlink, ret.
  cbn [files free_space tmp_names log]. rewrite Hconv.
  unfold world_after, converted, extracted, extract_markdown, lift, ret, raise.
  destruct (in_files p fs) eqn:Hin;
    (destruct o as [r|e];
     [destruct (document r) as [[md|e]|];
        [| |destruct (markdown_attr r) as [m|];
            [|destruct (as_str r) as [md|e]]]|]);
    unfold bind; cbn [files free_space tmp_names log]; rewrite Hin;
    cbn [files free_space tmp_names log]; rewrite <- ?app_assoc; reflexivity.
Qed.



(** X9. When no temporary file can be created the adapters answer with
    status 500; no file has been added and the converter has not been
    called. *)
Theorem adapter_without_temp_name (conv : DocumentConverter)
    (file_content : bytes) (name : str) (w : World) :
  (draw_name (tmp_names w) (lit ".pdf") (files w) = None ->
   exists w',
     parse_pdf_with_docling (service_with conv) file_content name w =
     (Raise (HTTPException 500
               (lit "Failed to parse PDF: [Errno 17] No usable temporary file name found")),
      w')
     /\ files w' = files w /\ log w' = log w)
  /\ (draw_name (tmp_names w) (image_suffix name) (files w) = None ->
      exists w',
        parse_image_with_docling (service_with conv) file_content name w =
        (Raise (HTTPException 500
                  (lit "Failed to parse image: [Errno 17] No usable temporary file name found")),
         w')
        /\ files w' = files w /\ log w' = log w).
Proof.
  split; intro Hdraw;
    unfold parse_pdf_with_docling, parse_image_with_docling, service_with;
    cbn [DOCLING_AVAILABLE converter]; cbv zeta;
    unfold try_except, bind, NamedTemporaryFile, raise;
    fold (image_suffix name); rewrite Hdraw;
    eexists; (split; [reflexivity|split; reflexivity]).
Qed.

(** ** What an adapter call does to the world, and how it fails *)

Lemma endswith_app (a b : str) : endswith (a ++ b) b = true.
Proof.
  unfold endswith. rewrite rev_app_distr. apply startswith_app. eauto.
Qed.

Lemma draw_name_spec (stems : list str) (suffix : str) (fs : list path)
    (p : path) (rest : list str) :
  draw_name stems suffix fs = Some (p, rest) ->
  endswith p suffix = true /\ in_files p fs = false.
Proof.
  induction stems as [|stem stems IH]; [discriminate|].
  cbn [draw_name]. cbv zeta.
  destruct (in_files (lit "/tmp/tmp" ++ stem ++ suffix) fs) eqn:E; [exact IH|].
  intros [= <- _]. split; [|exact E].
  exact (endswith_app (lit "/tmp/tmp" ++ stem) suffix).
Qed.

Lemma adapter_write_fails (conv : DocumentConverter)
    (suffix prefix placeholder : str) (file_content : bytes) (w : World)
    (p : path) (rest : list str) :
  draw_name (tmp_names w) suffix (files w) = Some (p, rest) ->
  (free_space w < N.of_nat (List.length file_content))%N ->
  try_except
    (tmp_path <- (tmp_file <- NamedTemporaryFile suffix ;;
                  write_file tmp_file file_content ;;;
                  ret tmp_file) ;;
     try_finally
       (r <- convert conv tmp_path ;;
        markdown <- extract_markdown r ;;
        ret (if truthy markdown then markdown else placeholder))
       (cleanup tmp_path))
    (fun e => raise (HTTPException 500 (prefix ++ exn_str e))) w
  = (Raise (HTTPException 500
              (prefix ++ lit "[Errno 28] No space left on device")),
     {| files := p :: files w; free_space := free_space w; tmp_names := rest;
        log := log w ++ [EvCreate p; EvWrite p] |}).
Proof.
  intros Hdraw Hfull. apply N.leb_gt in Hfull.
  unfold try_except, bind, NamedTemporaryFile, write_file, ret, raise.
  rewrite Hdraw. cbn [free_space files tmp_names log]. rewrite Hfull.
  now rewrite <- app_assoc.
Qed.

Lemma adapter_body_trace (conv : DocumentConverter)
    (suffix prefix placeholder : str) (file_content : bytes) (w : World) :
  exists l,
    log (snd (try_except
      (tmp_path <- (tmp_file <- NamedTemporaryFile suffix ;;
                    write_file tmp_file file_content ;;;
                    ret tmp_file) ;;
       try_finally
         (r <- convert conv tmp_path ;;
          markdown <- extract_markdown r ;;
          ret (if truthy markdown then markdown else placeholder))
         (cleanup tmp_path))
      (fun e => raise (HTTPException 500 (prefix ++ exn_str e))) w))
    = log w ++ l /\ adapter_trace suffix l.
Proof.
  destruct (draw_name (tmp_names w) suffix (files w)) as [[p rest]|] eqn:Hdraw.
  - destruct (draw_name_spec _ _ _ Hdraw) as [Hsuf _].
    destruct (N.le_gt_cases (N.of_nat (List.length file_content)) (free_space w))
      as [Hroom|Hfull].
    + destruct (convert_fn conv p (p :: files w)) as [o fs] eqn:Hconv.
      rewrite (@adapter_run conv suffix prefix placeholder file_content w p rest o fs
               Hdraw Hroom Hconv).
      unfold world_after. cbn [snd log].
      eexists. split; [reflexivity|]. right. exists p. split; [exact Hsuf|].
      destruct (in_files p fs); auto.
    + rewrite (@adapter_write_fails conv suffix prefix placeholder file_content w p
               rest Hdraw Hfull).
      cbn [snd log]. eexists. split; [reflexivity|]. right. exists p. auto.
  - exists []. split; [|now left].
    unfold try_except, bind, NamedTemporaryFile, raise. rewrite Hdraw.
    cbn. now rewrite app_nil_r.
Qed.

(** X10. One adapter call adds to the log of file and converter operations
    either nothing, or the creation and the write of one temporary file with
    the adapter's suffix, then at most one conversion of that file, then at
    most one unlink of it: the converter is never called twice and never
    before the upload was written. *)
Theorem adapter_operations_in_order (svc : Service) (file_content : bytes)
    (name : str) (w : World) :
  (exists l,
     log (snd (parse_pdf_with_docling svc file_content name w)) = log w ++ l
     /\ adapter_trace (lit ".pdf") l)
  /\ (exists l,
        log (snd (parse_image_with_docling svc file_content name w)) = log w ++ l
        /\ adapter_trace (image_suffix name) l).
Proof.
  assert (Hnone : forall suffix, exists l, log w = log w ++ l /\ adapter_trace suffix l)
    by (intro suffix; exists []; split; [now rewrite app_nil_r|now left]).
  unfold parse_pdf_with_docling, parse_image_with_docling.
  destruct (DOCLING_AVAILABLE svc), (converter svc) as [conv|];
    try (split; apply Hnone).
  cbv zeta. split; apply adapter_body_trace.
Qed.


(** ** The suffix of the image's temporary file *)

Lemma from_last_spec (c : char) (s t : str) :
  from_last c s = Some t ->
  exists pre rest, s = pre ++ t /\ t = c :: rest /\ ~ In c rest.
Proof.
  revert t. induction s as [|x s IH]; intro t; simpl; [discriminate|].
  destruct (from_last c s) as [u|] eqn:E.
  - intros [= <-]. destruct (IH u eq_refl) as (pre & rest & -> & Hu & Hn).
    now exists (x :: pre), rest.
  - destruct (x =? c)%N eqn:Ex; [|discriminate].
    intros [= <-]. apply N.eqb_eq in Ex. subst x.
    exists [], s. repeat split.
    clear IH. induction s as [|y s IHs]; [intros []|].
    simpl in E. destruct (from_last c s); [discriminate|].
    destruct (y =? c)%N eqn:Ey; [discriminate|].
    intros [H|H]; [subst y; now rewrite N.eqb_refl in Ey|now apply IHs].
Qed.

Lemma from_last_none (c : char) (s : str) : from_last c s = None -> ~ In c s.
Proof.
  induction s as [|y s IH]; [intros _ []|].
  simpl. destruct (from_last c s); [discriminate|].
  destruct (y =? c)%N eqn:Ey; [discriminate|].
  intros _ [H|H]; [subst y; now rewrite N.eqb_refl in Ey|now apply IH].
Qed.

Lemma drop_leading_suffix (c : char) (s : str) :
  exists pre, s = pre ++ drop_leading c s.
Proof.
  induction s as [|x s [pre IH]]; simpl; [now exists []|].
  destruct (x =? c)%N; [|now exists []].
  exists (x :: pre). simpl. now rewrite <- IH.
Qed.

Lemma splitext_ext_spec (p : str) :
  splitext_ext p = [] \/
  exists pre rest, p = pre ++ splitext_ext p
                   /\ splitext_ext p = 46%N :: rest
                   /\ ~ In 46%N rest /\ ~ In 47%N rest.
Proof.
  unfold splitext_ext.
  set (base := match from_last 47%N p with Some (_ :: b) => b | _ => p end).
  assert (Hbase : exists pre, p = pre ++ base /\ ~ In 47%N base).
  { subst base. destruct (from_last 47%N p) as [t|] eqn:E.
    - destruct (from_last_spec _ _ E) as (pre & rest & Hp & -> & Hn).
      exists (pre ++ [47%N]). split; [|exact Hn]. now rewrite <- app_assoc.
    - exists []. split; [reflexivity|now apply from_last_none]. }
  destruct Hbase as (pre1 & Hp & Hslash).
  destruct (drop_leading_suffix 46%N base) as [pre2 Hd].
  destruct (from_last 46%N (drop_leading 46%N base)) as [e|] eqn:E;
    [right|now left].
  destruct (from_last_spec _ _ E) as (pre3 & rest & He & -> & Hdot).
  exists (pre1 ++ pre2 ++ pre3), rest. repeat split; try assumption.
  - rewrite Hp at 1. rewrite Hd at 1. rewrite He at 1.
    now rewrite <- !app_assoc.
  - intro Hin. apply Hslash. rewrite Hd, He.
    apply in_or_app. right. apply in_or_app. right. now right.
Qed.

(** X12. The suffix the image adapter gives its temporary file is the
    extension of the upload's name when it has one and [.png] otherwise; in
    both cases it is a dot followed by code points that are neither a dot
    nor a path separator, and an extension is an end of the name. *)
Theorem image_suffix_is_an_extension (name : str) :
  (splitext_ext name = [] /\ image_suffix name = lit ".png"
   \/ image_suffix name = splitext_ext name
      /\ endswith name (splitext_ext name) = true)
  /\ exists rest, image_suffix name = 46%N :: rest
                  /\ ~ In 46%N rest /\ ~ In 47%N rest.
Proof.
  unfold image_suffix, or_else.
  destruct (splitext_ext_spec name) as [E|(pre & rest & Hn & E & Hdot & Hslash)].
  - rewrite E. simpl. split; [now left|].
    exists (lit "png"). split; [reflexivity|split; absent].
  - split.
    + right. rewrite E at 1. simpl. split; [now rewrite E|].
      rewrite Hn at 1. apply endswith_app.
    + rewrite E. simpl. now exists rest.
Qed.

(** ** The handler: failures, responses, and the CSV path *)

Lemma passes_gate_dec (file : UploadFile) :
  passes_gate file
  \/ (MAX_FILE_SIZE < size_of file)%Z
  \/ (within_size_limit file
      /\ has_valid_extension (effective_name file) = false
      /\ has_valid_type (effective_type file) = false).
Proof.
  unfold passes_gate, within_size_limit. fold (size_of file).
  destruct (Z.lt_ge_cases MAX_FILE_SIZE (size_of file)) as [H|H]; [auto|].
  destruct (has_valid_extension (effective_name file)),
           (has_valid_type (effective_type file)); auto.
Qed.


Lemma adapter_outcome_return (file : UploadFile) (t : str)
    (r : py_result str * World) (resp : JSONResponse) :
  fst (adapter_outcome file t r) = Return resp ->
  exists md, resp = response file md t.
Proof.
  destruct r as [[md|e] w]; simpl; [|discriminate].
  intros [= <-]. now exists md.
Qed.

(** X14. A success response always reports [success] true, the name the
    handler worked with and the byte length of the upload, which is within
    the limit; its file type is [text/csv] on the CSV branch,
    [application/pdf] on the PDF branch, and on the image branch the declared
    type as it was sent, or [image] when none was sent. *)
Theorem success_response_shape (svc : Service) (file : UploadFile) (w : World)
    (resp : JSONResponse) :
  fst (parse_document svc file w) = Return resp ->
  let name := effective_name file in
  let ctype := effective_type file in
  success resp = true
  /\ fileName (metadata resp) = name
  /\ fileSize (metadata resp) = size_of file
  /\ (size_of file <= 10485760)%Z
  /\ fileType (metadata resp) =
       (if csv_condition name ctype then lit "text/csv"
        else if pdf_condition name ctype then lit "application/pdf"
        else if truthy ctype then ctype else lit "image").
Proof.
  intros Hr name ctype.
  destruct (passes_gate_dec file) as [Hg|[H|(Hs & He & Ht)]].
  2: { rewrite (run_too_large svc file w H) in Hr. discriminate Hr. }
  2: { rewrite (run_gate_rejects svc w Hs He Ht) in Hr. discriminate Hr. }
  assert (Hsize : (size_of file <= 10485760)%Z) by (destruct Hg as [Hs _]; exact Hs).
  subst name ctype.
  destruct (csv_condition (effective_name file) (effective_type file)) eqn:Hc.
  { rewrite (run_csv svc w Hg Hc) in Hr. unfold csv_outcome in Hr. simpl in Hr.
    destruct (utf8_decode _); [|discriminate Hr].
    injection Hr as <-. now repeat split. }
  destruct (pdf_condition (effective_name file) (effective_type file)) eqn:Hp.
  { rewrite (run_pdf svc w Hg Hc Hp) in Hr.
    apply adapter_outcome_return in Hr as [md ->]. now repeat split. }
  destruct (image_condition (effective_name file) (effective_type file)) eqn:Hi.
  { rewrite (run_image svc w Hg Hc Hp Hi) in Hr.
    apply adapter_outcome_return in Hr as [md ->]. now repeat split. }
  exfalso. destruct Hg as [_ Hg]. apply gate_covered in Hg.
  rewrite Hc, Hp, Hi in Hg. discriminate Hg.
Qed.

(** X15. The CSV path needs neither the converter nor the file system: for a
    file on the CSV branch the answer is the same whatever the service and
    the world are, and the world is left unchanged; so CSV uploads are still
    served when the converter failed to start. *)
Theorem csv_path_needs_no_converter (svc svc' : Service) (file : UploadFile)
    (w w' : World) :
  passes_gate file ->
  csv_condition (effective_name file) (effective_type file) = true ->
  fst (parse_document svc file w) = fst (parse_document svc' file w')
  /\ snd (parse_document svc file w) = w.
Proof.
  intros Hg Hc. now rewrite !(run_csv _ _ Hg Hc).
Qed.



(** ** Images without a declared type, upper-case names, and the probes *)

Lemma image_extension_only (s : str) :
  existsb (fun ext => endswith s ext) [lit ".png"; lit ".jpg"; lit ".jpeg"] = true ->
  endswith s (lit ".csv") = false /\ endswith s (lit ".pdf") = false.
Proof.
  unfold endswith. generalize (rev s). intro r. cbn [existsb].
  destruct r as [|c1 [|c2 [|c3 [|c4 [|c5 r]]]]]; cbn;
    try (intro H; discriminate H);
    rewrite ?orb_false_r, ?andb_true_r;
    intro H; split;
    repeat match goal with
           | |- context [(?c =? ?k)%N] =>
               destruct (N.eqb_spec c k); [subst c|]; cbn in H |- *
           end;
    try reflexivity; try discriminate H.
Qed.

(** X17. A name that ends in [.png], [.jpg] or [.jpeg] (in any case) with no
    declared type, or an empty one, passes the gate by its extension and goes
    to the image adapter; the response then gives the file type [image]. *)
Theorem image_without_declared_type (svc : Service) (file : UploadFile) (w : World) :
  within_size_limit file ->
  content_type file = None \/ content_type file = Some [] ->
  existsb (fun ext => endswith (lower (effective_name file)) ext)
          [lit ".png"; lit ".jpg"; lit ".jpeg"] = true ->
  parse_document svc file w =
  adapter_outcome file (lit "image")
    (parse_image_with_docling svc (content file) (effective_name file) w).
Proof.
  intros Hs Ht Hext.
  assert (Et : effective_type file = [])
    by (unfold effective_type; destruct Ht as [-> | ->]; reflexivity).
  destruct (image_extension_only _ Hext) as [Hcsv Hpdf].
  assert (Hi : image_condition (effective_name file) (effective_type file) = true)
    by (unfold image_condition; now rewrite Hext).
  assert (Hc : csv_condition (effective_name file) (effective_type file) = false)
    by (unfold csv_condition; now rewrite Hcsv, Et).
  assert (Hp : pdf_condition (effective_name file) (effective_type file) = false)
    by (unfold pdf_condition; now rewrite Hpdf, Et).
  assert (Hg : passes_gate file).
  { split; [exact Hs|left]. unfold has_valid_extension, valid_extensions.
    cbn [existsb] in Hext |- *.
    rewrite Hcsv, Hpdf. exact Hext. }
  rewrite (run_image svc w Hg Hc Hp Hi). now rewrite Et.
Qed.

Lemma lower_from_ascii (seen e : str) :
  forallb is_ascii e = true -> lower_from seen e = map ascii_lower e.
Proof.
  revert seen. induction e as [|c e IH]; intros seen H; simpl; [reflexivity|].
  simpl in H. apply andb_prop in H as [Hc H]. rewrite (IH _ H).
  unfold lower_char, ascii_lower, is_ascii in *. rewrite Hc.
  now destruct ((65 <=? c)%N && (c <=? 90)%N).
Qed.

Lemma lower_from_end (seen base e : str) :
  exists l, lower_from seen (base ++ e) = l ++ lower_from (seen ++ base) e.
Proof.
  revert seen. induction base as [|c base IH]; intro seen; simpl.
  - exists []. now rewrite app_nil_r.
  - destruct (IH (seen ++ [c])) as [l Hl]. rewrite Hl, <- app_assoc.
    exists (lower_char seen c (base ++ e) ++ l). now rewrite <- app_assoc.
Qed.

(** X18. The gate does not look at the case of ASCII letters: a name that
    ends in an accepted extension written in any mix of upper and lower case
    has a valid extension, and a declared type that is an accepted type in
    any such mix is valid. *)
Theorem gate_ignores_ascii_case :
  (forall base e : str,
     forallb is_ascii e = true -> In (map ascii_lower e) valid_extensions ->
     has_valid_extension (base ++ e) = true)
  /\ (forall ctype : str,
        forallb is_ascii ctype = true -> In (map ascii_lower ctype) valid_types ->
        has_valid_type ctype = true).
Proof.
  split.
  - intros base e Ha Hin. unfold has_valid_extension.
    apply existsb_exists. exists (map ascii_lower e). split; [exact Hin|].
    unfold lower. destruct (lower_from_end [] base e) as [l ->].
    rewrite lower_from_ascii by exact Ha. apply endswith_app.
  - intros ctype Ha Hin. unfold has_valid_type, lower.
    rewrite lower_from_ascii by exact Ha. now apply mem_In.
Qed.

(** X19. After the module has started, the three availability flags of the
    two probes agree; they are true exactly when the import succeeded and the
    converter was constructed, and false exactly when the service has no
    usable converter. *)
Theorem probes_report_startup (import_ok : bool)
    (construct : outcome DocumentConverter) :
  let svc := startup import_ok construct in
  docling_available (root svc) = health_docling_available (health svc)
  /\ health_docling_available (health svc) = converter_initialized (health svc)
  /\ (health_docling_available (health svc) = true <->
      import_ok = true /\ exists conv, construct = Returns conv)
  /\ (health_docling_available (health svc) = false <-> unavailable svc).
Proof.
  unfold startup, unavailable.
  destruct import_ok; [destruct construct as [conv|e]|]; cbn;
    repeat split; try reflexivity; try discriminate; try tauto; eauto;
    try (intros [H|H]; discriminate H);
    try (intros [H _]; discriminate H);
    try (intros [_ [conv H]]; discriminate H).
Qed.


End Handler.

(** ** The conditional statements at sample inputs *)

Lemma C4_type_gate_witness :
  parse_document sample_lower sample_message unavailable_service
    (upload (Some (lit "report.txt")) (Some (lit "text/plain")) "a,b") roomy_world
  = (Raise (HTTPException 400 unsupported_gate_detail), roomy_world).
Proof.
  assert (Hs : within_size_limit
                 (upload (Some (lit "report.txt")) (Some (lit "text/plain")) "a,b"))
    by (vm_compute; discriminate).
  destruct (@C4_type_gate sample_lower sample_message unavailable_service
              _ roomy_world Hs) as [_ H].
  apply H; [reflexivity|reflexivity|exact Hs].
Defined.

Lemma C5_csv_branch_first_witness :
  parse_document sample_lower sample_message unavailable_service
    (upload (Some (lit "data.csv")) (Some (lit "image/png")) "a,b") roomy_world
  = (csv_outcome sample_message
       (upload (Some (lit "data.csv")) (Some (lit "image/png")) "a,b"),
     roomy_world).
Proof.
  assert (Hg : passes_gate sample_lower
                 (upload (Some (lit "data.csv")) (Some (lit "image/png")) "a,b")).
  { split; [vm_compute; discriminate|left; vm_compute; reflexivity]. }
  destruct (@C5_csv_branch_first sample_lower sample_message unavailable_service
              _ roomy_world Hg) as [H _].
  apply H. left. vm_compute. reflexivity.
Defined.

Lemma C6_unavailable_is_503_witness :
  parse_pdf_with_docling unavailable_service (encode_ascii "%PDF") (lit "a.pdf")
    roomy_world =
  (Raise (HTTPException 503
            (lit "Docling is not available. Please install docling: pip install docling")),
   roomy_world).
Proof.
  assert (Hun : DOCLING_AVAILABLE unavailable_service = false
                \/ converter unavailable_service = None)
    by (left; reflexivity).
  destruct (@C6_unavailable_is_503 sample_lower sample_message
              unavailable_service Hun) as [H _].
  apply H.
Defined.

Lemma C9_invalid_utf8_is_500_witness :
  exists detail,
    parse_document sample_lower sample_message unavailable_service
      {| filename := Some (lit "data.csv"); content_type := Some (lit "text/csv");
         content := [xff; x61] |} roomy_world
    = (Raise (HTTPException 500 detail), roomy_world)
    /\ detail = lit "Failed to parse document: "
                  ++ sample_message [xff; x61]
    /\ startswith detail (lit "Failed to parse document:") = true.
Proof.
  apply (@C9_invalid_utf8_is_500 sample_lower sample_message unavailable_service
           {| filename := Some (lit "data.csv");
              content_type := Some (lit "text/csv");
              content := [xff; x61] |} roomy_world).
  - split; [vm_compute; discriminate|left; vm_compute; reflexivity].
  - vm_compute. reflexivity.
  - intro H. apply H. vm_compute. reflexivity.
Defined.

Lemma C10_missing_filename_witness :
  parse_document sample_lower sample_message unavailable_service
    (upload None (Some (lit "text/csv")) "a,b") roomy_world
  = (Return {| success := true;
               markdown := render_table [lit "a"; lit "b"] [];
               metadata := {| fileName := lit "document";
                              fileType := lit "text/csv";
                              fileSize := 3 |} |},
     roomy_world).
Proof.
  destruct (@C10_missing_filename sample_lower sample_message unavailable_service
              (upload None (Some (lit "text/csv")) "a,b") roomy_world eq_refl)
    as (_ & _ & H).
  destruct H as (_ & _ & _ & _ & H); [reflexivity|vm_compute; discriminate|].
  apply (H (lit "a,b")). vm_compute. reflexivity.
Defined.

(** ** The further conditional statements at sample inputs *)

Lemma scanner_without_and_with_open_quote_witness :
  parse_csv_line (lit "a, b") = map strip (split comma (lit "a, b"))
  /\ parse_csv_line (quote :: lit "a, b") = [strip (lit "a, b")].
Proof.
  apply scanner_without_and_with_open_quote.
  vm_compute. intuition discriminate.
Defined.

Lemma scanner_reads_back_joined_row_witness :
  parse_csv_line (join [comma] [lit "a"; lit "b c"]) = [lit "a"; lit "b c"].
Proof.
  apply scanner_reads_back_joined_row; [intro H; discriminate H|].
  assert (Hcell : forall cell, cell = lit "a" \/ cell = lit "b c" ->
            trimmed cell /\ ~ In comma cell /\ ~ In quote cell).
  { intros cell [-> | ->]; (split; [split; intros c H; vm_compute in H;
      injection H as H; subst c; reflexivity|]);
      split; vm_compute; intuition discriminate. }
  constructor; [apply Hcell; now left|].
  constructor; [apply Hcell; now right|constructor].
Defined.




Lemma success_response_shape_witness :
  let resp := response (upload None (Some (lit "text/csv")) "a,b")
                (render_table [lit "a"; lit "b"] []) (lit "text/csv") in
  success resp = true
  /\ fileName (metadata resp) = lit "document"
  /\ fileSize (metadata resp) = 3%Z
  /\ (3 <= 10485760)%Z
  /\ fileType (metadata resp) = lit "text/csv".
Proof.
  apply (@success_response_shape sample_lower sample_message unavailable_service
           (upload None (Some (lit "text/csv")) "a,b") roomy_world).
  vm_compute. reflexivity.
Defined.

Lemma csv_path_needs_no_converter_witness :
  fst (parse_document sample_lower sample_message unavailable_service
         (upload (Some (lit "data.csv")) None "a,b") roomy_world)
  = fst (parse_document sample_lower sample_message available_service
           (upload (Some (lit "data.csv")) None "a,b") full_world)
  /\ snd (parse_document sample_lower sample_message unavailable_service
            (upload (Some (lit "data.csv")) None "a,b") roomy_world)
     = roomy_world.
Proof.
  apply csv_path_needs_no_converter.
  - split; [vm_compute; discriminate|left; vm_compute; reflexivity].
  - vm_compute. reflexivity.
Defined.


Lemma image_without_declared_type_witness :
  parse_document sample_lower sample_message available_service
    (upload (Some (lit "Scan.PNG")) None "GIF8") roomy_world
  = adapter_outcome (upload (Some (lit "Scan.PNG")) None "GIF8") (lit "image")
      (parse_image_with_docling available_service (encode_ascii "GIF8")
         (lit "Scan.PNG") roomy_world).
Proof.
  apply (@image_without_declared_type sample_lower sample_message
           available_service (upload (Some (lit "Scan.PNG")) None "GIF8")
           roomy_world).
  - vm_compute. discriminate.
  - left. reflexivity.
  - vm_compute. reflexivity.
Defined.
